(** * The job-finder component of [src/App.tsx]

    A shallow embedding of the [App] component: its six state cells, the
    browser's [localStorage], the calls it sends to the three outside
    services (auth, AI generation, the [savedJobs] collection) and its
    four asynchronous functions [loadSavedJobs], [loadInitialJobs],
    [handleSearch] and [toggleSaveJob].

    Conventions of the embedding.

    - A JavaScript string is a Rocq [string] holding its UTF-8 bytes.
      Concatenation, equality, [includes] and [filter] on such strings are
      then the byte-wise ones.
    - Every asynchronous function of the source has exactly one [await].
      It is split there: a [_start] part that runs up to the [await] and
      leaves the call that was sent in the world's call log, and a
      [_resume] part that runs from the answer of the call to the end of
      the function.  What a closure captured when the function was called
      (the [savedJobs] and [user] of that render) travels with the
      suspended function.
    - A handler is called from the latest render: the state its closure
      sees is the state at the moment of the call.
    - The answer of an outside service is not computed: it is an input
      ([Reply]), either a value or a rejection whose error is opaque.
    - [localStorage] is a finite map from keys to texts with no quota, so
      [setItem] always succeeds. *)

From Stdlib Require Import ZArith NArith Ascii String List.
From stdpp Require Import gmap strings list pretty.

Local Open Scope string_scope.
Local Open Scope list_scope.

(** ** Data model *)

(** [state.user] of the auth boundary: [{id, email}]. *)
Module User.
Record t := mk { id : string; email : string }.
End User.

(** [interface Job] (lines 9-21). *)
Module Job.
Record t := mk {
  id : string;
  title : string;
  company : string;
  location : string;
  salary : string;
  type : string;
  description : string;
  requirements : list string;
  posted : string;
  remote : bool;
  experience_level : string
}.
End Job.

(** A record of the remote [savedJobs] collection, as [toggleSaveJob]
    creates it (lines 157-162) and [loadSavedJobs] reads it (line 48). *)
Module SavedJob.
Record t := mk {
  id : string;
  userId : string;
  jobId : string;
  createdAt : string
}.
End SavedJob.

(** The schema literal handed to [blink.ai.generateObject]. *)
#[local] Set Warnings "-register-all".
Inductive Schema :=
| SString
| SBoolean
| SArray (items : Schema)
| SObject (properties : list (string * Schema)).

(** The calls the component sends out. *)
Inductive Call :=
| db_savedJobs_list (where_userId : string)
| db_savedJobs_create (record : SavedJob.t)
| db_savedJobs_delete (id : string)
| ai_generateObject (prompt : string) (schema : Schema).

(** The answer to a call: the awaited promise resolves with a value or
    rejects. *)
Inductive Reply (A : Type) :=
| Resolved (a : A)
| Rejected.
Arguments Resolved {A} a.
Arguments Rejected {A}.

(** The six [useState] cells of [App] (lines 24-29). *)
Record State := mkState {
  user : option User.t;
  loading : bool;
  searchQuery : string;
  jobs : list Job.t;
  searchLoading : bool;
  savedJobs : list string
}.

(** Initial values of the cells (the arguments of [useState]). *)
Definition initialState : State :=
  {| user := None; loading := true; searchQuery := ""; jobs := [];
     searchLoading := false; savedJobs := [] |}.

Definition setUser (v : option User.t) (s : State) : State :=
  {| user := v; loading := loading s; searchQuery := searchQuery s;
     jobs := jobs s; searchLoading := searchLoading s;
     savedJobs := savedJobs s |}.

Definition setLoading (v : bool) (s : State) : State :=
  {| user := user s; loading := v; searchQuery := searchQuery s;
     jobs := jobs s; searchLoading := searchLoading s;
     savedJobs := savedJobs s |}.

Definition setSearchQuery (v : string) (s : State) : State :=
  {| user := user s; loading := loading s; searchQuery := v;
     jobs := jobs s; searchLoading := searchLoading s;
     savedJobs := savedJobs s |}.

Definition setJobs (v : list Job.t) (s : State) : State :=
  {| user := user s; loading := loading s; searchQuery := searchQuery s;
     jobs := v; searchLoading := searchLoading s;
     savedJobs := savedJobs s |}.

Definition setSearchLoading (v : bool) (s : State) : State :=
  {| user := user s; loading := loading s; searchQuery := searchQuery s;
     jobs := jobs s; searchLoading := v;
     savedJobs := savedJobs s |}.

Definition setSavedJobs (v : list string) (s : State) : State :=
  {| user := user s; loading := loading s; searchQuery := searchQuery s;
     jobs := jobs s; searchLoading := searchLoading s;
     savedJobs := v |}.

(** What the component can touch: its state cells, the browser's
    [localStorage], the console, and the log of calls sent so far (oldest
    first). *)
Record World := mkWorld {
  st : State;
  localStorage : gmap string string;
  console : list string;
  calls : list Call
}.

Definition update (f : State → State) (w : World) : World :=
  {| st := f (st w); localStorage := localStorage w;
     console := console w; calls := calls w |}.

Definition localStorage_getItem (key : string) (w : World) : option string :=
  localStorage w !! key.

Definition localStorage_setItem (key value : string) (w : World) : World :=
  {| st := st w; localStorage := <[key := value]> (localStorage w);
     console := console w; calls := calls w |}.

(** [console.error] and [console.log]: the label of the message is kept,
    the error object printed after it is opaque. *)
Definition console_print (label : string) (w : World) : World :=
  {| st := st w; localStorage := localStorage w;
     console := console w ++ [label]; calls := calls w |}.

Definition send (c : Call) (w : World) : World :=
  {| st := st w; localStorage := localStorage w;
     console := console w; calls := calls w ++ [c] |}.

(** ** Strings *)

Definition dquote : ascii := ascii_of_N 34.
Definition backslash : ascii := ascii_of_N 92.

(** [Array.prototype.includes] on an array of strings. *)
Definition includes (l : list string) (x : string) : bool :=
  bool_decide (x ∈ l).

(** JavaScript's white space and line terminators, which [trim] removes,
    as UTF-8 byte sequences of one, two or three bytes. *)
Definition ws1 (a : N) : bool :=
  ((9 <=? a) && (a <=? 13) || (a =? 32))%N.

Definition ws2 (a b : N) : bool :=
  ((a =? 194) && (b =? 160))%N.                       (* U+00A0 *)

Definition ws3 (a b c : N) : bool :=
  ((a =? 225) && (b =? 154) && (c =? 128)             (* U+1680 *)
   || (a =? 226) && (b =? 128) && (128 <=? c) && (c <=? 138) (* U+2000-200A *)
   || (a =? 226) && (b =? 128) && ((c =? 168) || (c =? 169) || (c =? 175))
                                          (* U+2028, U+2029, U+202F *)
   || (a =? 226) && (b =? 129) && (c =? 159)          (* U+205F *)
   || (a =? 227) && (b =? 128) && (c =? 128)          (* U+3000 *)
   || (a =? 239) && (b =? 187) && (c =? 191))%N.      (* U+FEFF *)

Fixpoint trimStart (s : string) : string :=
  match s with
  | EmptyString => EmptyString
  | String a r =>
      if ws1 (N_of_ascii a) then trimStart r else
      match r with
      | EmptyString => s
      | String b r2 =>
          if ws2 (N_of_ascii a) (N_of_ascii b) then trimStart r2 else
          match r2 with
          | EmptyString => s
          | String c r3 =>
              if ws3 (N_of_ascii a) (N_of_ascii b) (N_of_ascii c)
              then trimStart r3 else s
          end
      end
  end.

(** The same from the other end, on the reversed list of bytes. *)
Fixpoint trimStart_rev (l : list ascii) : list ascii :=
  match l with
  | [] => []
  | a :: r =>
      if ws1 (N_of_ascii a) then trimStart_rev r else
      match r with
      | [] => l
      | b :: r2 =>
          if ws2 (N_of_ascii b) (N_of_ascii a) then trimStart_rev r2 else
          match r2 with
          | [] => l
          | c :: r3 =>
              if ws3 (N_of_ascii c) (N_of_ascii b) (N_of_ascii a)
              then trimStart_rev r3 else l
          end
      end
  end.

Definition trimEnd (s : string) : string :=
  string_of_list_ascii
    (List.rev (trimStart_rev (List.rev (list_ascii_of_string s)))).

(** [String.prototype.trim]. *)
Definition trim (s : string) : string := trimEnd (trimStart s).

(** A string is falsy exactly when it is empty. *)
Definition truthy (s : string) : bool :=
  match s with EmptyString => false | String _ _ => true end.

(** ** JSON texts of arrays of strings

    [localStorage] holds texts; the component writes
    [JSON.stringify(newSavedJobs)] and reads back with [JSON.parse]. *)

Definition hexdigit (n : N) : ascii :=
  if (n <? 10)%N then ascii_of_N (48 + n) else ascii_of_N (87 + n).

(** [QuoteJSONString] on one byte: the two-character escapes, [\u00xx]
    for the other control characters, the byte itself otherwise. *)
Definition quote_byte (a : ascii) : string :=
  let n := N_of_ascii a in
  if (n =? 8)%N then String backslash "b"
  else if (n =? 9)%N then String backslash "t"
  else if (n =? 10)%N then String backslash "n"
  else if (n =? 12)%N then String backslash "f"
  else if (n =? 13)%N then String backslash "r"
  else if (n =? 34)%N then String backslash (String dquote "")
  else if (n =? 92)%N then String backslash (String backslash "")
  else if (n <? 32)%N then
    String backslash
      (String "u" (String "0" (String "0"
         (String (hexdigit (n / 16)) (String (hexdigit (n mod 16)) "")))))
  else String a "".

Fixpoint quote_bytes (s : string) : string :=
  match s with
  | EmptyString => EmptyString
  | String a r => quote_byte a +:+ quote_bytes r
  end.

Definition quote (s : string) : string :=
  String dquote (quote_bytes s +:+ String dquote "").

Fixpoint join_comma (l : list string) : string :=
  match l with
  | [] => ""
  | [x] => x
  | x :: r => x +:+ "," +:+ join_comma r
  end.

(** [JSON.stringify] of a [string[]]. *)
Definition JSON_stringify (l : list string) : string :=
  "[" +:+ join_comma (map quote l) +:+ "]".

(** What [JSON.parse] gives for a text, seen from [setSavedJobs]: either
    an array of strings, or anything else.  "Anything else" is a
    [SyntaxError], or a value that is not a [string[]] (a number, an
    object, an array holding a non-string, a string with a lone
    surrogate), which the declared type of the [savedJobs] cell cannot
    hold. *)
Inductive Parsed :=
| ParsedIds (ids : list string)
| ParsedOther.

(** One piece of a string literal: a byte written as it is, or the UTF-16
    code unit an escape stands for. *)
Inductive Piece :=
| Raw (a : ascii)
| Unit (u : N).

Definition utf8 (cp : N) : list ascii :=
  (if cp <? 128 then [ascii_of_N cp]
   else if cp <? 2048 then
     [ascii_of_N (192 + cp / 64); ascii_of_N (128 + cp mod 64)]
   else if cp <? 65536 then
     [ascii_of_N (224 + cp / 4096); ascii_of_N (128 + (cp / 64) mod 64);
      ascii_of_N (128 + cp mod 64)]
   else
     [ascii_of_N (240 + cp / 262144); ascii_of_N (128 + (cp / 4096) mod 64);
      ascii_of_N (128 + (cp / 64) mod 64); ascii_of_N (128 + cp mod 64)])%N.

Definition high_surrogate (u : N) : bool := ((55296 <=? u) && (u <=? 56319))%N.
Definition low_surrogate (u : N) : bool := ((56320 <=? u) && (u <=? 57343))%N.

(** The bytes of the string a literal denotes; [None] when a surrogate
    has no partner. *)
Fixpoint decode (ps : list Piece) : option (list ascii) :=
  match ps with
  | [] => Some []
  | Raw a :: r => cons a <$> decode r
  | Unit u :: r =>
      if high_surrogate u then
        match r with
        | Unit v :: r2 =>
            if low_surrogate v then
              app (utf8 (65536 + (u - 55296) * 1024 + (v - 56320))%N)
                <$> decode r2
            else None
        | _ => None
        end
      else if low_surrogate u then None
      else app (utf8 u) <$> decode r
  end.

Definition hexval (c : ascii) : option N :=
  let n := N_of_ascii c in
  (if (48 <=? n) && (n <=? 57) then Some (n - 48)
   else if (97 <=? n) && (n <=? 102) then Some (n - 87)
   else if (65 <=? n) && (n <=? 70) then Some (n - 55)
   else None)%N.

(** The code unit of a two-character escape. *)
Definition escape (c : ascii) : option N :=
  let n := N_of_ascii c in
  (if n =? 34 then Some 34         (* quote *)
   else if n =? 92 then Some 92    (* backslash *)
   else if n =? 47 then Some 47    (* slash *)
   else if n =? 98 then Some 8     (* b *)
   else if n =? 102 then Some 12   (* f *)
   else if n =? 110 then Some 10   (* n *)
   else if n =? 114 then Some 13   (* r *)
   else if n =? 116 then Some 9    (* t *)
   else None)%N.

(** JSON's own white space: space, tab, line feed, carriage return. *)
Definition json_ws (c : ascii) : bool :=
  let n := N_of_ascii c in
  ((n =? 32) || (n =? 9) || (n =? 10) || (n =? 13))%N.

(** Where the reader stands in the text.  [done] holds the strings read
    so far, newest first; [cur] the pieces of the string being read,
    newest first. *)
Inductive Reader :=
| RStart
| ROpen
| RElem (done : list string)
| RStr (done : list string) (cur : list Piece)
| REsc (done : list string) (cur : list Piece)
| RHex (done : list string) (cur : list Piece) (more : nat) (v : N)
| RAfter (done : list string)
| REnd (done : list string)
| RFail.

Definition close_string (done : list string) (cur : list Piece) : Reader :=
  match decode (List.rev cur) with
  | Some bytes => RAfter (string_of_list_ascii bytes :: done)
  | None => RFail
  end.

Definition read_char (r : Reader) (c : ascii) : Reader :=
  let n := N_of_ascii c in
  match r with
  | RStart =>
      if json_ws c then RStart
      else if (n =? 91)%N then ROpen else RFail
  | ROpen =>
      if json_ws c then ROpen
      else if (n =? 93)%N then REnd []
      else if (n =? 34)%N then RStr [] [] else RFail
  | RElem done =>
      if json_ws c then RElem done
      else if (n =? 34)%N then RStr done [] else RFail
  | RStr done cur =>
      if (n =? 34)%N then close_string done cur
      else if (n =? 92)%N then REsc done cur
      else if (n <? 32)%N then RFail
      else RStr done (Raw c :: cur)
  | REsc done cur =>
      if (n =? 117)%N then RHex done cur 4 0
      else match escape c with
           | Some u => RStr done (Unit u :: cur)
           | None => RFail
           end
  | RHex done cur more v =>
      match hexval c with
      | Some d =>
          match more with
          | 0%nat => RFail
          | 1%nat => RStr done (Unit (16 * v + d) :: cur)
          | S k => RHex done cur k (16 * v + d)
          end
      | None => RFail
      end
  | RAfter done =>
      if json_ws c then RAfter done
      else if (n =? 44)%N then RElem done
      else if (n =? 93)%N then REnd done else RFail
  | REnd done => if json_ws c then REnd done else RFail
  | RFail => RFail
  end.

Fixpoint read (r : Reader) (s : string) : Reader :=
  match s with
  | EmptyString => r
  | String c rest => read (read_char r c) rest
  end.

(** [JSON.parse], as far as [setSavedJobs] can take its result. *)
Definition JSON_parse (text : string) : Parsed :=
  match read RStart text with
  | REnd done => ParsedIds (List.rev done)
  | _ => ParsedOther
  end.

(** ** The asynchronous functions of the component *)

(** A function suspended at its [await], with what its closure captured
    and still uses after the [await]. *)
Inductive Pending :=
| loadSavedJobs_await (u : User.t)
| loadInitialJobs_await
| handleSearch_await
| toggleSaveJob_await_delete
    (u : option User.t) (saved : list string) (jobId : string)
| toggleSaveJob_await_create
    (u : User.t) (saved : list string) (jobId : string).

(** How far a call of an asynchronous function gets before it gives
    control back: to its end, or to its [await]. *)
Inductive Started :=
| Returned (w : World)
| Suspended (w : World) (k : Pending).

Definition world_of (s : Started) : World :=
  match s with Returned w => w | Suspended w _ => w end.

(** *** [loadSavedJobs] (lines 42-57), called with a non-null [user] *)

Definition loadSavedJobs_start (u : User.t) (w : World) : Started :=
  Suspended (send (db_savedJobs_list (User.id u)) w) (loadSavedJobs_await u).

(** [None]: the text under the key is not the JSON text of an array of
    strings ([ParsedOther]).  Then [JSON.parse] throws inside the [catch]
    block, or [setSavedJobs] receives a value that is no [string[]]; the
    component is not followed further in either case. *)
Definition loadSavedJobs_resume
    (u : User.t) (r : Reply (list SavedJob.t)) (w : World) : option World :=
  match r with
  | Resolved saved =>
      Some (update (setSavedJobs (map SavedJob.jobId saved)) w)
  | Rejected =>
      let w := console_print "Error loading saved jobs:" w in
      match localStorage_getItem ("savedJobs_" +:+ User.id u) w with
      | Some localSaved =>
          if truthy localSaved then
            match JSON_parse localSaved with
            | ParsedIds ids => Some (update (setSavedJobs ids) w)
            | ParsedOther => None
            end
          else Some w
      | None => Some w
      end
  end.

(** *** [loadInitialJobs] (lines 59-96)

    The promise of [generateObject] resolves with [{object}]; the reply
    carries [object.jobs], which the boundary promises to be an array of
    postings. *)

Definition loadInitialJobs_prompt : string :=
  "Generate 8 realistic entry-level job postings for new graduates in tech, marketing, finance, and other fields. Include diverse companies and locations.".

Definition loadInitialJobs_schema : Schema :=
  SObject
    [("jobs",
      SArray
        (SObject
           [("id", SString);
            ("title", SString);
            ("company", SString);
            ("location", SString);
            ("salary", SString);
            ("type", SString);
            ("description", SString);
            ("requirements", SArray SString);
            ("posted", SString);
            ("remote", SBoolean);
            ("experience_level", SString)]))].

Definition loadInitialJobs_start (w : World) : Started :=
  let w := update (setSearchLoading true) w in
  Suspended
    (send (ai_generateObject loadInitialJobs_prompt loadInitialJobs_schema) w)
    loadInitialJobs_await.

Definition loadInitialJobs_resume (r : Reply (list Job.t)) (w : World) : World :=
  let w :=
    match r with
    | Resolved object_jobs => update (setJobs object_jobs) w
    | Rejected => console_print "Error loading jobs:" w
    end in
  update (setSearchLoading false) w.

(** *** [handleSearch] (lines 102-140) *)

Definition handleSearch_prompt (searchQuery : string) : string :=
  "Find entry-level jobs for new graduates related to: "
  +:+ String dquote searchQuery
  +:+ String dquote
        ". Generate 6 realistic job postings that match this search query.".

Definition handleSearch_schema : Schema :=
  SObject
    [("jobs",
      SArray
        (SObject
           [("id", SString);
            ("title", SString);
            ("company", SString);
            ("location", SString);
            ("salary", SString);
            ("type", SString);
            ("description", SString);
            ("requirements", SArray SString);
            ("posted", SString);
            ("remote", SBoolean);
            ("experience_level", SString)]))].

Definition handleSearch_start (w : World) : Started :=
  if negb (truthy (trim (searchQuery (st w)))) then Returned w
  else
    let q := searchQuery (st w) in
    let w := update (setSearchLoading true) w in
    Suspended
      (send (ai_generateObject (handleSearch_prompt q) handleSearch_schema) w)
      handleSearch_await.

Definition handleSearch_resume (r : Reply (list Job.t)) (w : World) : World :=
  let w :=
    match r with
    | Resolved object_jobs => update (setJobs object_jobs) w
    | Rejected => console_print "Error searching jobs:" w
    end in
  update (setSearchLoading false) w.

(** *** [toggleSaveJob] (lines 142-173)

    [now] is the reading of [Date.now()] and [iso] the text of
    [new Date().toISOString()]; both are only read on the branch that
    adds.  [savedJobs] and [user] are the ones of the render the handler
    belongs to.  With [user] null, [user.id] throws a [TypeError]: on the
    adding branch while the record is built, so that no call is sent and
    the inner [catch] runs, and then again in the key of [setItem]; on the
    removing branch in the key of [setItem], after [setSavedJobs]. *)

Definition storageKey (u : User.t) : string := "savedJobs_" +:+ User.id u.

Definition toggleSaveJob_start
    (now : Z) (iso : string) (jobId : string) (w : World) : Started :=
  let saved := savedJobs (st w) in
  if includes saved jobId then
    Suspended (send (db_savedJobs_delete jobId) w)
      (toggleSaveJob_await_delete (user (st w)) saved jobId)
  else
    match user (st w) with
    | Some u =>
        Suspended
          (send (db_savedJobs_create
                   {| SavedJob.id := "saved_" +:+ pretty now;
                      SavedJob.userId := User.id u;
                      SavedJob.jobId := jobId;
                      SavedJob.createdAt := iso |}) w)
          (toggleSaveJob_await_create u saved jobId)
    | None =>
        let w := console_print "Database not available, using localStorage" w in
        let newSavedJobs := (saved ++ [jobId])%list in
        let w := update (setSavedJobs newSavedJobs) w in
        Returned (console_print "Error toggling saved job:" w)
    end.

Definition toggleSaveJob_resume_delete
    (u : option User.t) (saved : list string) (jobId : string)
    (r : Reply ()) (w : World) : World :=
  let w :=
    match r with
    | Resolved _ => w
    | Rejected => console_print "Database not available, using localStorage" w
    end in
  let newSavedJobs := filter (λ id, id ≠ jobId) saved in
  let w := update (setSavedJobs newSavedJobs) w in
  match u with
  | Some u => localStorage_setItem (storageKey u) (JSON_stringify newSavedJobs) w
  | None => console_print "Error toggling saved job:" w
  end.

Definition toggleSaveJob_resume_create
    (u : User.t) (saved : list string) (jobId : string)
    (r : Reply ()) (w : World) : World :=
  let w :=
    match r with
    | Resolved _ => w
    | Rejected => console_print "Database not available, using localStorage" w
    end in
  let newSavedJobs := (saved ++ [jobId])%list in
  let w := update (setSavedJobs newSavedJobs) w in
  localStorage_setItem (storageKey u) (JSON_stringify newSavedJobs) w.

(** *** One call from start to end

    The functions as they run when nothing else happens between the
    [await] and the answer. *)

Definition loadSavedJobs
    (u : User.t) (r : Reply (list SavedJob.t)) (w : World) : option World :=
  loadSavedJobs_resume u r (world_of (loadSavedJobs_start u w)).

Definition loadInitialJobs (r : Reply (list Job.t)) (w : World) : World :=
  loadInitialJobs_resume r (world_of (loadInitialJobs_start w)).

Definition handleSearch (r : Reply (list Job.t)) (w : World) : World :=
  match handleSearch_start w with
  | Returned w => w
  | Suspended w _ => handleSearch_resume r w
  end.

Definition toggleSaveJob
    (r : Reply ()) (now : Z) (iso : string) (jobId : string) (w : World)
    : World :=
  match toggleSaveJob_start now iso jobId w with
  | Suspended w (toggleSaveJob_await_delete u saved j) =>
      toggleSaveJob_resume_delete u saved j r w
  | Suspended w (toggleSaveJob_await_create u saved j) =>
      toggleSaveJob_resume_create u saved j r w
  | Suspended w _ => w
  | Returned w => w
  end.

(** ** The component as an event-driven system

    JavaScript runs one handler at a time, to its end or to its [await].
    A [System] is the world, the functions suspended at an [await] (by
    ticket, in the order they were suspended) and the next free ticket.
    Nothing cancels a suspended function: a ticket leaves [inflight] only
    when its call is answered. *)

Record System := mkSystem {
  world : World;
  inflight : gmap nat Pending;
  fresh : nat
}.

Definition boot : System :=
  {| world := {| st := initialState; localStorage := ∅;
                 console := []; calls := [] |};
     inflight := ∅; fresh := 0 |}.

(** Call an asynchronous function; if it suspends, it takes a ticket. *)
Definition launch (f : World → Started) (sys : System) : System :=
  match f (world sys) with
  | Returned w =>
      {| world := w; inflight := inflight sys; fresh := fresh sys |}
  | Suspended w k =>
      {| world := w; inflight := <[fresh sys := k]> (inflight sys);
         fresh := S (fresh sys) |}
  end.

(** The answered function runs to its end and gives its ticket back. *)
Definition land (t : nat) (w : World) (sys : System) : System :=
  {| world := w; inflight := delete t (inflight sys); fresh := fresh sys |}.

Inductive Event :=
| AuthStateChanged (u : option User.t) (isLoading : bool)  (* lines 32-35 *)
| UserEffect                                   (* the effect of lines 39-100 *)
| QueryTyped (value : string)                  (* onChange, line 241 *)
| SearchRequested                              (* Enter or the button *)
| BookmarkClicked (jobId : string) (now : Z) (iso : string)   (* line 330 *)
| ListAnswered (t : nat) (r : Reply (list SavedJob.t))
| GenerateAnswered (t : nat) (r : Reply (list Job.t))
| MutationAnswered (t : nat) (r : Reply ()).

(** One event.  [None]: the event cannot happen (no such ticket, or an
    answer of the wrong kind), or [loadSavedJobs_resume] gave [None]. *)
Definition step (e : Event) (sys : System) : option System :=
  match e with
  | AuthStateChanged u isLoading =>
      Some (launch (λ w, Returned (update (setLoading isLoading)
                                     (update (setUser u) w))) sys)
  | UserEffect =>
      match user (st (world sys)) with
      | None => Some sys
      | Some u =>
          Some (launch loadInitialJobs_start
                  (launch (loadSavedJobs_start u) sys))
      end
  | QueryTyped value =>
      Some (launch (λ w, Returned (update (setSearchQuery value) w)) sys)
  | SearchRequested => Some (launch handleSearch_start sys)
  | BookmarkClicked jobId now iso =>
      Some (launch (toggleSaveJob_start now iso jobId) sys)
  | ListAnswered t r =>
      match inflight sys !! t with
      | Some (loadSavedJobs_await u) =>
          w ← loadSavedJobs_resume u r (world sys); Some (land t w sys)
      | _ => None
      end
  | GenerateAnswered t r =>
      match inflight sys !! t with
      | Some loadInitialJobs_await =>
          Some (land t (loadInitialJobs_resume r (world sys)) sys)
      | Some handleSearch_await =>
          Some (land t (handleSearch_resume r (world sys)) sys)
      | _ => None
      end
  | MutationAnswered t r =>
      match inflight sys !! t with
      | Some (toggleSaveJob_await_delete u saved jobId) =>
          Some (land t (toggleSaveJob_resume_delete u saved jobId r
                          (world sys)) sys)
      | Some (toggleSaveJob_await_create u saved jobId) =>
          Some (land t (toggleSaveJob_resume_create u saved jobId r
                          (world sys)) sys)
      | _ => None
      end
  end.

Fixpoint run (es : list Event) (sys : System) : option System :=
  match es with
  | [] => Some sys
  | e :: es => sys ← step e sys; run es sys
  end.

(** ** What is drawn (lines 175-411), as far as it depends on the state *)

Inductive Grid :=
| Skeletons (n : nat)
| Cards (cards : list (Job.t * bool)).    (* a posting, and: bookmarked? *)

Inductive View :=
| LoadingScreen
| SignInPrompt
| MainPage (welcome : string) (searchDisabled : bool) (heading : string)
           (grid : Grid) (noJobsFound : bool).

Definition jobsGrid (s : State) : Grid :=
  if searchLoading s then Skeletons 6
  else Cards (map (λ job, (job, includes (savedJobs s) (Job.id job))) (jobs s)).

Definition render (s : State) : View :=
  if loading s then LoadingScreen
  else match user s with
       | None => SignInPrompt
       | Some u =>
           MainPage (User.email u) (searchLoading s)
             (if truthy (searchQuery s)
              then "Results for " +:+ String dquote (searchQuery s)
                   +:+ String dquote ""
              else "Recommended Jobs")
             (jobsGrid s)
             (Nat.eqb (length (jobs s)) 0 && negb (searchLoading s))
       end.

(** The requirement badges of one card (lines 371-382): the first three
    requirements, then one badge counting the rest when there are more. *)
Definition requirementBadges (requirements : list string) : list string :=
  take 3 requirements
  ++ (if (3 <? length requirements)%nat
      then ["+" +:+ pretty (length requirements - 3)%nat +:+ " more"]
      else []).

(** The postings on display. *)
Definition displayedJobs (g : Grid) : list Job.t :=
  match g with
  | Skeletons _ => []
  | Cards cards => map fst cards
  end.

(** ** The words of the specification *)

(** The white-space characters of JavaScript, each as its UTF-8 bytes. *)
Definition bytes (l : list nat) : string :=
  string_of_list_ascii (map ascii_of_nat l).

Definition whitespace : list string :=
  [bytes [9]; bytes [10]; bytes [11]; bytes [12]; bytes [13]; bytes [32];
   bytes [194; 160]; bytes [225; 154; 128];
   bytes [226; 128; 128]; bytes [226; 128; 129]; bytes [226; 128; 130];
   bytes [226; 128; 131]; bytes [226; 128; 132]; bytes [226; 128; 133];
   bytes [226; 128; 134]; bytes [226; 128; 135]; bytes [226; 128; 136];
   bytes [226; 128; 137]; bytes [226; 128; 138];
   bytes [226; 128; 168]; bytes [226; 128; 169]; bytes [226; 128; 175];
   bytes [226; 129; 159]; bytes [227; 128; 128]; bytes [239; 187; 191]].

(** A text that is empty or made of white space only. *)
Inductive blank : string → Prop :=
| blank_empty : blank ""
| blank_more c s : c ∈ whitespace → blank s → blank (c +:+ s).

(** The saved set after a toggle: without the id if it was there, with
    the id at the end if it was not. *)
Definition toggled (saved : list string) (jobId : string) : list string :=
  if includes saved jobId then filter (λ id, id ≠ jobId) saved
  else (saved ++ [jobId])%list.

(** The piece the reader gets back from what [quote_byte] wrote. *)
Definition piece_of (a : ascii) : Piece :=
  let n := N_of_ascii a in
  if ((n <? 32) || (n =? 34) || (n =? 92))%N then Unit n else Raw a.

(** ** Sample data *)

Definition alice : User.t :=
  {| User.id := "u1"; User.email := "alice@example.org" |}.

Definition posting (id title : string) : Job.t :=
  {| Job.id := id; Job.title := title; Job.company := "Acme";
     Job.location := "Lisbon"; Job.salary := "50k"; Job.type := "Full-time";
     Job.description := "Entry-level role"; Job.requirements := ["BSc"];
     Job.posted := "2 days ago"; Job.remote := true;
     Job.experience_level := "entry" |}.

(** The world once [alice] has signed in: nothing saved, nothing stored. *)
Definition signedIn : World :=
  {| st := setLoading false (setUser (Some alice) initialState);
     localStorage := ∅; console := []; calls := [] |}.

Definition signedInSystem : System :=
  {| world := signedIn; inflight := ∅; fresh := 0 |}.

Definition withQuery (q : string) (w : World) : World :=
  update (setSearchQuery q) w.

Definition withSaved (ids : list string) (w : World) : World :=
  update (setSavedJobs ids) w.

(** * Properties *)

(** ** Strings and JSON texts *)

Lemma trimStart_blank s : blank s → trimStart s = "".
Proof.
  induction 1 as [|c s Hc _ IH]; [reflexivity|].
  unfold whitespace in Hc.
  repeat (apply elem_of_cons in Hc as [-> | Hc]; [exact IH|]).
  by apply elem_of_nil in Hc.
Qed.

Lemma trim_blank s : blank s → trim s = "".
Proof. intros H. unfold trim. by rewrite (trimStart_blank s H). Qed.

Lemma append_assoc (a b c : string) : (a +:+ b) +:+ c = a +:+ (b +:+ c).
Proof. induction a as [|x a IH]; [done|]. exact (f_equal (String x) IH). Qed.

Lemma append_empty_r (a : string) : a +:+ "" = a.
Proof. induction a as [|x a IH]; [done|]. exact (f_equal (String x) IH). Qed.

Lemma string_of_list_ascii_app (l1 l2 : list ascii) :
  string_of_list_ascii (l1 ++ l2)
  = string_of_list_ascii l1 +:+ string_of_list_ascii l2.
Proof. induction l1 as [|x l1 IH]; [done|]. exact (f_equal (String x) IH). Qed.

Lemma blank_app p q : blank p → blank q → blank (p +:+ q).
Proof.
  induction 1 as [|c s Hc _ IH]; intros Hq; [done|].
  rewrite append_assoc. apply blank_more; auto.
Qed.

Lemma blank_one c : c ∈ whitespace → blank c.
Proof.
  intros Hc. rewrite <- (append_empty_r c).
  apply blank_more; [done | apply blank_empty].
Qed.

Ltac in_whitespace := apply (bool_decide_unpack _); vm_compute; exact I.

Lemma ascii_of_code a n : N_of_ascii a = n → a = ascii_of_N n.
Proof. intros <-. by rewrite ascii_N_embedding. Qed.

Lemma ws1_whitespace a :
  ws1 (N_of_ascii a) = true → String a "" ∈ whitespace.
Proof.
  unfold ws1. intros H.
  assert (C : (N_of_ascii a = 9 ∨ N_of_ascii a = 10 ∨ N_of_ascii a = 11
               ∨ N_of_ascii a = 12 ∨ N_of_ascii a = 13
               ∨ N_of_ascii a = 32)%N).
  { apply orb_true_iff in H as [[H1 H2]%andb_true_iff | H%N.eqb_eq].
    - apply N.leb_le in H1, H2. lia.
    - lia. }
  destruct C as [C|[C|[C|[C|[C|C]]]]];
    apply ascii_of_code in C; subst a; in_whitespace.
Qed.

Lemma ws2_whitespace a b :
  ws2 (N_of_ascii a) (N_of_ascii b) = true →
  String a (String b "") ∈ whitespace.
Proof.
  unfold ws2. intros [Ha%N.eqb_eq Hb%N.eqb_eq]%andb_true_iff.
  apply ascii_of_code in Ha, Hb. subst a b. in_whitespace.
Qed.

Lemma ws3_whitespace a b c :
  ws3 (N_of_ascii a) (N_of_ascii b) (N_of_ascii c) = true →
  String a (String b (String c "")) ∈ whitespace.
Proof.
  unfold ws3. intros H.
  repeat (apply orb_true_iff in H as [H|H]);
    repeat (apply andb_true_iff in H as [H ?]);
    repeat match goal with
           | E : (_ =? _)%N = true |- _ =>
               apply N.eqb_eq, ascii_of_code in E
           | E : (_ || _) = true |- _ => apply orb_true_iff in E as [E|E]
           end;
    subst; try in_whitespace.
  assert (C : (N_of_ascii c = 128 ∨ N_of_ascii c = 129 ∨ N_of_ascii c = 130
               ∨ N_of_ascii c = 131 ∨ N_of_ascii c = 132
               ∨ N_of_ascii c = 133 ∨ N_of_ascii c = 134
               ∨ N_of_ascii c = 135 ∨ N_of_ascii c = 136
               ∨ N_of_ascii c = 137 ∨ N_of_ascii c = 138)%N).
  { repeat match goal with
           | E : (_ <=? _)%N = true |- _ => apply N.leb_le in E
           end. lia. }
  repeat (destruct C as [C|C]; [apply ascii_of_code in C; subst c; in_whitespace|]).
  apply ascii_of_code in C; subst c; in_whitespace.
Qed.

(** [trimStart] takes a blank text off the front. *)
Lemma trimStart_prefix (n : nat) s :
  (String.length s ≤ n)%nat → ∃ p, blank p ∧ s = p +:+ trimStart s.
Proof.
  revert s. induction n as [|n IH]; intros s Hn.
  { destruct s; [|cbn in Hn; lia]. exists "". split; [apply blank_empty|done]. }
  destruct s as [|a r]; [exists ""; split; [apply blank_empty|done]|].
  cbn [trimStart]. cbn in Hn.
  destruct (ws1 (N_of_ascii a)) eqn:E1.
  { destruct (IH r) as (p & Hp & Er); [lia|].
    exists (String a "" +:+ p). split.
    - apply blank_more; [by apply ws1_whitespace | done].
    - exact (f_equal (String a) Er). }
  destruct r as [|b r2]; [exists ""; split; [apply blank_empty|done]|].
  cbn in Hn.
  destruct (ws2 (N_of_ascii a) (N_of_ascii b)) eqn:E2.
  { destruct (IH r2) as (p & Hp & Er); [lia|].
    exists (String a (String b "") +:+ p). split.
    - apply blank_more; [by apply ws2_whitespace | done].
    - exact (f_equal (λ x, String a (String b x)) Er). }
  destruct r2 as [|c r3]; [exists ""; split; [apply blank_empty|done]|].
  cbn in Hn.
  destruct (ws3 (N_of_ascii a) (N_of_ascii b) (N_of_ascii c)) eqn:E3.
  { destruct (IH r3) as (p & Hp & Er); [lia|].
    exists (String a (String b (String c "")) +:+ p). split.
    - apply blank_more; [by apply ws3_whitespace | done].
    - exact (f_equal (λ x, String a (String b (String c x))) Er). }
  exists "". split; [apply blank_empty|done].
Qed.

(** When [trimStart_rev] leaves nothing, the text was blank. *)
Lemma trimStart_rev_nil (n : nat) (l : list ascii) :
  (length l ≤ n)%nat → trimStart_rev l = [] →
  blank (string_of_list_ascii (List.rev l)).
Proof.
  revert l. induction n as [|n IH]; intros l Hn H.
  { destruct l; [apply blank_empty | cbn in Hn; lia]. }
  destruct l as [|a r]; [apply blank_empty|].
  cbn [trimStart_rev] in H. cbn in Hn.
  destruct (ws1 (N_of_ascii a)) eqn:E1.
  { cbn [List.rev]. rewrite string_of_list_ascii_app.
    apply blank_app; [apply IH; [lia|done]|].
    apply blank_one. by apply ws1_whitespace. }
  destruct r as [|b r2]; [discriminate H|]. cbn in Hn.
  destruct (ws2 (N_of_ascii b) (N_of_ascii a)) eqn:E2.
  { cbn [List.rev]. rewrite <- app_assoc, string_of_list_ascii_app.
    apply blank_app; [apply IH; [lia|done]|].
    apply blank_one. by apply ws2_whitespace. }
  destruct r2 as [|c r3]; [discriminate H|]. cbn in Hn.
  destruct (ws3 (N_of_ascii c) (N_of_ascii b) (N_of_ascii a)) eqn:E3;
    [|discriminate H].
  cbn [List.rev]. rewrite <- !app_assoc, string_of_list_ascii_app.
  apply blank_app; [apply IH; [lia|done]|].
  apply blank_one. by apply ws3_whitespace.
Qed.

Lemma trimEnd_empty t : trimEnd t = "" → blank t.
Proof.
  unfold trimEnd. intros H.
  assert (E : trimStart_rev (List.rev (list_ascii_of_string t)) = []).
  { apply (f_equal list_ascii_of_string) in H.
    rewrite list_ascii_of_string_of_list_ascii in H. cbn in H.
    apply (f_equal (@List.rev ascii)) in H.
    by rewrite rev_involutive in H. }
  apply (trimStart_rev_nil _ _ (le_n _)) in E.
  by rewrite rev_involutive, string_of_list_ascii_of_string in E.
Qed.

(** [!searchQuery.trim()] holds exactly for the blank texts. *)
Lemma trim_empty_iff_blank s : trim s = "" ↔ blank s.
Proof.
  split; [|apply trim_blank].
  intros H%trimEnd_empty.
  destruct (trimStart_prefix _ s (le_n _)) as (p & Hp & ->).
  by apply blank_app.
Qed.

Lemma not_blank_truthy s : ¬ blank s → truthy (trim s) = true.
Proof.
  intros H. destruct (trim s) eqn:E; [|done].
  exfalso. by apply H, trim_empty_iff_blank.
Qed.

Lemma read_app r s1 s2 : read r (s1 +:+ s2) = read (read r s1) s2.
Proof. revert r. induction s1 as [|c s1 IH]; intros r; [done|]. apply IH. Qed.

Lemma read_quote_byte done cur a :
  read (RStr done cur) (quote_byte a) = RStr done (piece_of a :: cur).
Proof. destruct a as [[] [] [] [] [] [] [] []]; reflexivity. Qed.

Lemma decode_piece_of a ps :
  decode (piece_of a :: ps) = cons a <$> decode ps.
Proof.
  destruct a as [[] [] [] [] [] [] [] []];
    (reflexivity || (cbn; by destruct (decode ps))).
Qed.

Lemma read_quote_bytes done cur s :
  read (RStr done cur) (quote_bytes s)
  = RStr done (List.rev (map piece_of (list_ascii_of_string s)) ++ cur)%list.
Proof.
  revert cur. induction s as [|a s IH]; intros cur; [done|].
  cbn [quote_bytes list_ascii_of_string map List.rev].
  rewrite read_app, read_quote_byte, IH, <- app_assoc. done.
Qed.

Lemma decode_pieces l : decode (map piece_of l) = Some l.
Proof.
  induction l as [|a l IH]; [done|].
  cbn [map]. by rewrite decode_piece_of, IH.
Qed.

Lemma read_quote done s : read (RStr done []) (quote_bytes s +:+ String dquote "")
                          = RAfter (s :: done).
Proof.
  rewrite read_app, read_quote_bytes, app_nil_r. cbn.
  unfold close_string.
  rewrite rev_involutive, decode_pieces, string_of_list_ascii_of_string.
  done.
Qed.

Lemma read_elements done x l :
  read (RElem done) (join_comma (map quote (x :: l)))
  = RAfter (List.rev (x :: l) ++ done)%list.
Proof.
  revert done x. induction l as [|y l IH]; intros done x.
  - cbn [map join_comma]. unfold quote. cbn [read]. apply read_quote.
  - change (join_comma (map quote (x :: y :: l)))
      with (quote x +:+ "," +:+ join_comma (map quote (y :: l))).
    rewrite !read_app. unfold quote at 1. cbn [read].
    change (read_char (RElem done) dquote) with (RStr done []).
    rewrite read_quote. cbn [read].
    change (read_char (RAfter (x :: done)) ",") with (RElem (x :: done)).
    rewrite IH. cbn [List.rev]. by rewrite <- !app_assoc.
Qed.

Lemma read_open_elements x l :
  read ROpen (join_comma (map quote (x :: l)))
  = read (RElem []) (join_comma (map quote (x :: l))).
Proof. destruct l; reflexivity. Qed.

(** What [toggleSaveJob] writes, [loadSavedJobs] reads back. *)
Lemma JSON_parse_stringify l : JSON_parse (JSON_stringify l) = ParsedIds l.
Proof.
  unfold JSON_parse, JSON_stringify. destruct l as [|x l]; [done|].
  rewrite !read_app.
  change (read RStart "[") with ROpen.
  rewrite read_open_elements, read_elements, app_nil_r.
  change (read (RAfter ?d) "]") with (REnd d).
  cbv beta iota. by rewrite rev_involutive.
Qed.

Lemma JSON_stringify_truthy l : truthy (JSON_stringify l) = true.
Proof. done. Qed.

(** ** [toggleSaveJob] *)

Lemma includes_true (l : list string) x : includes l x = true ↔ x ∈ l.
Proof. apply bool_decide_eq_true. Qed.

Lemma includes_false (l : list string) x : includes l x = false ↔ x ∉ l.
Proof. apply bool_decide_eq_false. Qed.

Lemma filter_out_absent (x : string) (l : list string) :
  x ∉ l → filter (λ id, id ≠ x) l = l.
Proof.
  induction l as [|y l IH]; [done|].
  intros [Hy Hl]%not_elem_of_cons.
  rewrite filter_cons_True by congruence. by rewrite IH.
Qed.

Lemma filter_out_last (x : string) (l : list string) :
  x ∉ l → filter (λ id, id ≠ x) (l ++ [x]) = l.
Proof.
  intros Hx. rewrite filter_app, filter_out_absent by done.
  rewrite filter_cons_False by (intros H; by apply H).
  by rewrite filter_nil, app_nil_r.
Qed.

(** The two ways through [toggleSaveJob] when a user is signed in. *)
Lemma toggleSaveJob_absent w u r now iso jobId :
  user (st w) = Some u → jobId ∉ savedJobs (st w) →
  toggleSaveJob r now iso jobId w
  = toggleSaveJob_resume_create u (savedJobs (st w)) jobId r
      (send (db_savedJobs_create
               {| SavedJob.id := "saved_" +:+ pretty now;
                  SavedJob.userId := User.id u;
                  SavedJob.jobId := jobId;
                  SavedJob.createdAt := iso |}) w).
Proof.
  intros Hu Hj%includes_false.
  unfold toggleSaveJob, toggleSaveJob_start. by rewrite Hj, Hu.
Qed.

Lemma toggleSaveJob_present w r now iso jobId :
  jobId ∈ savedJobs (st w) →
  toggleSaveJob r now iso jobId w
  = toggleSaveJob_resume_delete (user (st w)) (savedJobs (st w)) jobId r
      (send (db_savedJobs_delete jobId) w).
Proof.
  intros Hj%includes_true.
  unfold toggleSaveJob, toggleSaveJob_start. by rewrite Hj.
Qed.

(** What the two continuations leave, whatever the answer was. *)
Lemma resume_create_st u saved jobId r w :
  st (toggleSaveJob_resume_create u saved jobId r w)
  = setSavedJobs (saved ++ [jobId]) (st w).
Proof. by destruct r. Qed.

Lemma resume_create_localStorage u saved jobId r w :
  localStorage (toggleSaveJob_resume_create u saved jobId r w)
  = <[storageKey u := JSON_stringify (saved ++ [jobId])]> (localStorage w).
Proof. by destruct r. Qed.

Lemma resume_create_calls u saved jobId r w :
  calls (toggleSaveJob_resume_create u saved jobId r w) = calls w.
Proof. by destruct r. Qed.

Lemma resume_delete_st u saved jobId r w :
  st (toggleSaveJob_resume_delete u saved jobId r w)
  = setSavedJobs (filter (λ id, id ≠ jobId) saved) (st w).
Proof. by destruct r, u. Qed.

Lemma resume_delete_localStorage u saved jobId r w :
  localStorage (toggleSaveJob_resume_delete (Some u) saved jobId r w)
  = <[storageKey u := JSON_stringify (filter (λ id, id ≠ jobId) saved)]>
      (localStorage w).
Proof. by destruct r. Qed.

Lemma resume_delete_calls u saved jobId r w :
  calls (toggleSaveJob_resume_delete u saved jobId r w) = calls w.
Proof. by destruct r, u. Qed.

(** C1 (as amended).  With a user signed in and [jobId] not in the saved
    set, one toggle puts [jobId] at the end of the saved set and writes the
    JSON text of the new set under [savedJobs_<userId>]; the next toggle
    takes it out of both.  After the two toggles the component state is the
    original one, and the local entry holds the JSON text of the original
    saved set: it is the original entry when the entry held that text
    before, and replaces whatever was (or was not) there otherwise. *)
Theorem toggle_twice_round_trip
    w u jobId r1 r2 now1 iso1 now2 iso2 :
  user (st w) = Some u →
  jobId ∉ savedJobs (st w) →
  let key := "savedJobs_" +:+ User.id u in
  let w1 := toggleSaveJob r1 now1 iso1 jobId w in
  let w2 := toggleSaveJob r2 now2 iso2 jobId w1 in
  (savedJobs (st w1) = (savedJobs (st w) ++ [jobId])%list
   ∧ localStorage w1
     = <[key := JSON_stringify (savedJobs (st w) ++ [jobId])]> (localStorage w)
   ∧ JSON_parse <$> (localStorage w1 !! key)
     = Some (ParsedIds (savedJobs (st w) ++ [jobId])))
  ∧ ((jobId ∉ savedJobs (st w2))
     ∧ localStorage w2 !! key = Some (JSON_stringify (savedJobs (st w)))
     ∧ JSON_parse <$> (localStorage w2 !! key)
       = Some (ParsedIds (savedJobs (st w))))
  ∧ st w2 = st w
  ∧ localStorage w2
    = <[key := JSON_stringify (savedJobs (st w))]> (localStorage w)
  ∧ (localStorage w !! key = Some (JSON_stringify (savedJobs (st w))) →
     localStorage w2 = localStorage w).
Proof.
  intros Hu Hj key w1 w2.
  assert (E1 : w1 = toggleSaveJob_resume_create u (savedJobs (st w)) jobId r1
                      (send (db_savedJobs_create
                               {| SavedJob.id := "saved_" +:+ pretty now1;
                                  SavedJob.userId := User.id u;
                                  SavedJob.jobId := jobId;
                                  SavedJob.createdAt := iso1 |}) w))
    by (by apply toggleSaveJob_absent).
  assert (S1 : st w1 = setSavedJobs (savedJobs (st w) ++ [jobId]) (st w))
    by (by rewrite E1, resume_create_st).
  assert (L1 : localStorage w1
               = <[key := JSON_stringify (savedJobs (st w) ++ [jobId])]>
                   (localStorage w))
    by (by rewrite E1, resume_create_localStorage).
  assert (Hin : jobId ∈ savedJobs (st w1)).
  { rewrite S1. cbn. apply elem_of_app. right. by apply list_elem_of_singleton. }
  assert (E2 : w2 = toggleSaveJob_resume_delete (user (st w1))
                      (savedJobs (st w1)) jobId r2
                      (send (db_savedJobs_delete jobId) w1))
    by (by apply toggleSaveJob_present).
  assert (U1 : user (st w1) = Some u) by (by rewrite S1).
  assert (S2 : st w2 = st w).
  { rewrite E2, resume_delete_st. cbn [send st]. rewrite S1.
    cbn [savedJobs setSavedJobs]. rewrite filter_out_last by done.
    destruct (st w); done. }
  assert (L2 : localStorage w2
               = <[key := JSON_stringify (savedJobs (st w))]> (localStorage w)).
  { rewrite E2, U1, resume_delete_localStorage. cbn [send localStorage].
    rewrite L1, S1. cbn [savedJobs setSavedJobs].
    rewrite filter_out_last by done. apply insert_insert_eq. }
  repeat split.
  - by rewrite S1.
  - exact L1.
  - rewrite L1, lookup_insert_eq. cbn. by rewrite JSON_parse_stringify.
  - by rewrite S2.
  - by rewrite L2, lookup_insert_eq.
  - rewrite L2, lookup_insert_eq. cbn. by rewrite JSON_parse_stringify.
  - exact S2.
  - exact L2.
  - intros H. rewrite L2. by apply insert_id.
Qed.

Lemma toggle_twice_round_trip_witness :
  let w := localStorage_setItem "savedJobs_u1" "[]" signedIn in
  let w1 := toggleSaveJob Rejected 5 "1970-01-01T00:00:00.005Z" "job-1" w in
  let w2 := toggleSaveJob (Resolved ()) 8 "1970-01-01T00:00:00.008Z" "job-1" w1 in
  savedJobs (st w1) = ["job-1"] ∧ st w2 = st w ∧ localStorage w2 = localStorage w.
Proof.
  intros w w1 w2.
  assert (Hu : user (st w) = Some alice) by reflexivity.
  assert (Hj : "job-1" ∉ savedJobs (st w)) by apply not_elem_of_nil.
  destruct (toggle_twice_round_trip w alice "job-1" Rejected (Resolved ())
              5 "1970-01-01T00:00:00.005Z" 8 "1970-01-01T00:00:00.008Z"
              Hu Hj) as ((H1 & _) & _ & Hst & _ & Hls).
  split; [exact H1|]. split; [exact Hst|].
  apply Hls. apply lookup_insert_eq.
Defined.

(** C1 as it is written fails where the local entry was not the JSON text
    of the saved set: after a first sign-in nothing is stored under the
    key, and two toggles leave the text of the empty array there. *)
Lemma toggle_twice_leaves_entry :
  let w1 := toggleSaveJob (Resolved ()) 5 "1970-01-01T00:00:00.005Z" "job-1"
              signedIn in
  let w2 := toggleSaveJob (Resolved ()) 8 "1970-01-01T00:00:00.008Z" "job-1"
              w1 in
  user (st signedIn) = Some alice
  ∧ ("job-1" ∉ savedJobs (st signedIn))
  ∧ localStorage signedIn !! "savedJobs_u1" = None
  ∧ localStorage w2 !! "savedJobs_u1" = Some "[]"
  ∧ localStorage w2 ≠ localStorage signedIn.
Proof.
  intros w1 w2.
  assert (H : localStorage w2 !! "savedJobs_u1" = Some "[]")
    by (unfold w2, w1; cbn; apply lookup_insert_eq).
  split; [done|]. split; [apply not_elem_of_nil|]. split; [done|].
  split; [exact H|]. intros E. rewrite E in H. cbn in H.
  by rewrite lookup_empty in H.
Qed.

(** The same when the entry is out of step with the saved set (the set
    came from the remote store, the entry from an earlier session): two
    toggles replace the entry by the text of the saved set. *)
Lemma toggle_twice_replaces_stale_entry :
  let w := localStorage_setItem "savedJobs_u1" (JSON_stringify ["a"; "b"])
             (withSaved ["a"] signedIn) in
  let w2 := toggleSaveJob (Resolved ()) 8 "1970-01-01T00:00:00.008Z" "c"
              (toggleSaveJob (Resolved ()) 5 "1970-01-01T00:00:00.005Z" "c" w) in
  localStorage w !! "savedJobs_u1" = Some (JSON_stringify ["a"; "b"])
  ∧ localStorage w2 !! "savedJobs_u1" = Some (JSON_stringify ["a"])
  ∧ st w2 = st w.
Proof.
  intros w w2. split; [apply lookup_insert_eq|].
  split; [|done]. unfold w2, w. cbn. apply lookup_insert_eq.
Qed.

(** The answer of the remote call reaches neither the state nor
    [localStorage], from whatever world the continuation runs. *)
Lemma resume_delete_ignores_reply u saved jobId r r' w :
  st (toggleSaveJob_resume_delete u saved jobId r w)
  = st (toggleSaveJob_resume_delete u saved jobId r' w)
  ∧ localStorage (toggleSaveJob_resume_delete u saved jobId r w)
    = localStorage (toggleSaveJob_resume_delete u saved jobId r' w).
Proof. by destruct r, r', u. Qed.

Lemma resume_create_ignores_reply u saved jobId r r' w :
  st (toggleSaveJob_resume_create u saved jobId r w)
  = st (toggleSaveJob_resume_create u saved jobId r' w)
  ∧ localStorage (toggleSaveJob_resume_create u saved jobId r w)
    = localStorage (toggleSaveJob_resume_create u saved jobId r' w).
Proof. by destruct r, r'. Qed.

Lemma toggleSaveJob_ignores_reply r r' now iso jobId w :
  st (toggleSaveJob r now iso jobId w) = st (toggleSaveJob r' now iso jobId w)
  ∧ localStorage (toggleSaveJob r now iso jobId w)
    = localStorage (toggleSaveJob r' now iso jobId w)
  ∧ calls (toggleSaveJob r now iso jobId w)
    = calls (toggleSaveJob r' now iso jobId w).
Proof.
  unfold toggleSaveJob, toggleSaveJob_start.
  destruct (includes _ _); [by destruct r, r', (user (st w))|].
  destruct (user (st w)); [by destruct r, r'|done].
Qed.

Lemma toggleSaveJob_st w u r now iso jobId :
  user (st w) = Some u →
  st (toggleSaveJob r now iso jobId w)
  = setSavedJobs (toggled (savedJobs (st w)) jobId) (st w)
  ∧ localStorage (toggleSaveJob r now iso jobId w)
    = <[storageKey u := JSON_stringify (toggled (savedJobs (st w)) jobId)]>
        (localStorage w).
Proof.
  intros Hu. unfold toggled.
  destruct (includes (savedJobs (st w)) jobId) eqn:E.
  - apply includes_true in E.
    rewrite toggleSaveJob_present by done.
    by rewrite resume_delete_st, Hu, resume_delete_localStorage.
  - apply includes_false in E.
    rewrite (toggleSaveJob_absent w u) by done.
    by rewrite resume_create_st, resume_create_localStorage.
Qed.

(** C2.  When the remote [create] or [delete] rejects, the toggle leaves
    the same state cells and the same [localStorage] as when it resolves:
    the saved set is the toggled one and the entry under
    [savedJobs_<userId>] is its JSON text. *)
Theorem toggle_survives_remote_failure w u now iso jobId v :
  user (st w) = Some u →
  let failed := toggleSaveJob Rejected now iso jobId w in
  let succeeded := toggleSaveJob (Resolved v) now iso jobId w in
  st failed = st succeeded
  ∧ localStorage failed = localStorage succeeded
  ∧ savedJobs (st failed) = toggled (savedJobs (st w)) jobId
  ∧ localStorage failed !! ("savedJobs_" +:+ User.id u)
    = Some (JSON_stringify (toggled (savedJobs (st w)) jobId))
  ∧ JSON_parse <$> (localStorage failed !! ("savedJobs_" +:+ User.id u))
    = Some (ParsedIds (toggled (savedJobs (st w)) jobId)).
Proof.
  intros Hu failed succeeded.
  destruct (toggleSaveJob_ignores_reply Rejected (Resolved v) now iso jobId w)
    as (Hst & Hls & _).
  destruct (toggleSaveJob_st w u Rejected now iso jobId Hu) as [S L].
  fold failed in S, L.
  split; [exact Hst|]. split; [exact Hls|].
  split; [by rewrite S|].
  assert (K : localStorage failed !! ("savedJobs_" +:+ User.id u)
              = Some (JSON_stringify (toggled (savedJobs (st w)) jobId)))
    by (rewrite L; apply lookup_insert_eq).
  split; [exact K|]. rewrite K. cbn. by rewrite JSON_parse_stringify.
Qed.

Lemma toggle_survives_remote_failure_witness :
  let failed :=
    toggleSaveJob Rejected 5 "1970-01-01T00:00:00.005Z" "job-2"
      (withSaved ["job-1"] signedIn) in
  savedJobs (st failed) = ["job-1"; "job-2"]
  ∧ localStorage failed !! "savedJobs_u1"
    = Some (JSON_stringify ["job-1"; "job-2"]).
Proof.
  intros failed.
  destruct (toggle_survives_remote_failure (withSaved ["job-1"] signedIn)
              alice 5 "1970-01-01T00:00:00.005Z" "job-2" () eq_refl)
    as (_ & _ & H1 & H2 & _).
  split; [exact H1 | exact H2].
Defined.

(** C10.  A toggle keeps the saved set free of duplicates: removing
    filters, adding only happens when the id was not found. *)
Theorem toggle_keeps_NoDup w r now iso jobId :
  NoDup (savedJobs (st w)) →
  NoDup (savedJobs (st (toggleSaveJob r now iso jobId w))).
Proof.
  intros Hnd. unfold toggleSaveJob, toggleSaveJob_start.
  destruct (includes (savedJobs (st w)) jobId) eqn:E.
  - rewrite resume_delete_st. cbn. by apply NoDup_filter.
  - apply includes_false in E.
    assert (N : NoDup (savedJobs (st w) ++ [jobId])).
    { apply NoDup_app. split; [done|]. split; [|apply NoDup_singleton].
      intros x Hx ->%list_elem_of_singleton. by apply E. }
    destruct (user (st w)); [by rewrite resume_create_st|done].
Qed.

Lemma toggle_keeps_NoDup_witness :
  NoDup (savedJobs (st (toggleSaveJob Rejected 5 "1970-01-01T00:00:00.005Z"
                          "job-1" (withSaved ["job-1"; "job-2"] signedIn)))).
Proof.
  apply toggle_keeps_NoDup. cbn.
  apply NoDup_cons. split.
  - intros H%list_elem_of_singleton. discriminate H.
  - apply NoDup_singleton.
Defined.

(** The same for a toggle that was suspended: what it writes at its end
    is computed from the saved set its closure captured. *)
Lemma resume_delete_keeps_NoDup u saved jobId r w :
  NoDup saved →
  NoDup (savedJobs (st (toggleSaveJob_resume_delete u saved jobId r w))).
Proof. intros Hnd. rewrite resume_delete_st. cbn. by apply NoDup_filter. Qed.

Lemma resume_create_keeps_NoDup u saved jobId r w :
  NoDup saved → jobId ∉ saved →
  NoDup (savedJobs (st (toggleSaveJob_resume_create u saved jobId r w))).
Proof.
  intros Hnd E. rewrite resume_create_st. cbn.
  apply NoDup_app. split; [done|]. split; [|apply NoDup_singleton].
  intros x Hx ->%list_elem_of_singleton. by apply E.
Qed.

(** The calls of a save followed by an unsave. *)
Lemma save_then_unsave_calls w u jobId r1 r2 now1 iso1 now2 iso2 :
  user (st w) = Some u →
  jobId ∉ savedJobs (st w) →
  calls (toggleSaveJob r2 now2 iso2 jobId
           (toggleSaveJob r1 now1 iso1 jobId w))
  = calls w ++
    [db_savedJobs_create
       {| SavedJob.id := "saved_" +:+ pretty now1;
          SavedJob.userId := User.id u;
          SavedJob.jobId := jobId;
          SavedJob.createdAt := iso1 |};
     db_savedJobs_delete jobId].
Proof.
  intros Hu Hj.
  rewrite (toggleSaveJob_present (toggleSaveJob r1 now1 iso1 jobId w)).
  - rewrite resume_delete_calls. cbn [send calls].
    rewrite (toggleSaveJob_absent w u) by done.
    rewrite resume_create_calls. cbn [send calls].
    by rewrite <- app_assoc.
  - rewrite (toggleSaveJob_absent w u), resume_create_st by done.
    apply elem_of_app. right. by apply list_elem_of_singleton.
Qed.

(** C9 (as amended).  A save sends [create] with the record id
    [saved_<timestamp>], the unsave that follows sends [delete] with the
    job id; the [delete] names the record of the save exactly when the job
    id is itself the text [saved_<timestamp>] of that save, and never for
    another job id. *)
Theorem unsave_deletes_by_job_id w u jobId r1 r2 now1 iso1 now2 iso2 :
  user (st w) = Some u →
  jobId ∉ savedJobs (st w) →
  ∃ record id,
    calls (toggleSaveJob r2 now2 iso2 jobId
             (toggleSaveJob r1 now1 iso1 jobId w))
    = calls w ++ [db_savedJobs_create record; db_savedJobs_delete id]
    ∧ SavedJob.id record = "saved_" +:+ pretty now1
    ∧ SavedJob.userId record = User.id u
    ∧ SavedJob.jobId record = jobId
    ∧ SavedJob.createdAt record = iso1
    ∧ id = jobId
    ∧ (id = SavedJob.id record ↔ jobId = "saved_" +:+ pretty now1).
Proof.
  intros Hu Hj. eexists _, _. split.
  - by apply save_then_unsave_calls.
  - cbn. done.
Qed.

Lemma unsave_deletes_by_job_id_witness :
  ∃ record id,
    calls (toggleSaveJob (Resolved ()) 1700000000123 "2023-11-14T22:13:20.123Z"
             "job-1"
             (toggleSaveJob (Resolved ()) 1700000000000
                "2023-11-14T22:13:20.000Z" "job-1" signedIn))
    = [db_savedJobs_create record; db_savedJobs_delete id]
    ∧ SavedJob.id record = "saved_1700000000000"
    ∧ id = "job-1".
Proof.
  destruct (unsave_deletes_by_job_id signedIn alice "job-1"
              (Resolved ()) (Resolved ())
              1700000000000 "2023-11-14T22:13:20.000Z"
              1700000000123 "2023-11-14T22:13:20.123Z"
              eq_refl (not_elem_of_nil _))
    as (record & id & Hc & Hid & _ & _ & _ & Hj & _).
  exists record, id. split; [exact Hc|]. split; [exact Hid | exact Hj].
Defined.

(** C9 as it is written fails when the posting's id is the very text the
    save builds for its record: the [delete] then names that record. *)
Lemma unsave_can_name_the_saved_record :
  user (st signedIn) = Some alice
  ∧ ("saved_1700000000000" ∉ savedJobs (st signedIn))
  ∧ calls (toggleSaveJob (Resolved ()) 1700000000123
             "2023-11-14T22:13:20.123Z" "saved_1700000000000"
             (toggleSaveJob (Resolved ()) 1700000000000
                "2023-11-14T22:13:20.000Z" "saved_1700000000000" signedIn))
    = [db_savedJobs_create
         {| SavedJob.id := "saved_1700000000000"; SavedJob.userId := "u1";
            SavedJob.jobId := "saved_1700000000000";
            SavedJob.createdAt := "2023-11-14T22:13:20.000Z" |};
       db_savedJobs_delete "saved_1700000000000"].
Proof. split; [done|]. split; [apply not_elem_of_nil|]. reflexivity. Qed.

(** ** [loadInitialJobs] and [handleSearch] *)

Lemma displayed_cards (saved : list string) (js : list Job.t) :
  map fst (map (λ job, (job, includes saved (Job.id job))) js) = js.
Proof. induction js as [|j js IH]; [done|]. cbn. by rewrite IH. Qed.

(** C3.  After an initial load whose generation call resolved, the job
    list is the [jobs] array of the answer, the grid shows one card for
    each of its postings, in order, and so as many cards as the array is
    long; when the main page is what is drawn, that grid is on it.  The
    same holds when the answer comes to a suspended load, whatever
    happened to the world meanwhile. *)
Theorem initial_load_shows_response w object_jobs :
  let w' := loadInitialJobs (Resolved object_jobs) w in
  (jobs (st w') = object_jobs
   ∧ displayedJobs (jobsGrid (st w')) = object_jobs
   ∧ length (displayedJobs (jobsGrid (st w'))) = length object_jobs
   ∧ match render (st w') with
     | MainPage _ _ _ grid noJobsFound =>
         length (displayedJobs grid) = length object_jobs
         ∧ noJobsFound = Nat.eqb (length object_jobs) 0
     | _ => loading (st w) = true ∨ user (st w) = None
     end)
  ∧ (∀ w'' , jobs (st (loadInitialJobs_resume (Resolved object_jobs) w''))
             = object_jobs
             ∧ displayedJobs
                 (jobsGrid (st (loadInitialJobs_resume (Resolved object_jobs)
                                  w'')))
               = object_jobs).
Proof.
  intros w'.
  assert (D : ∀ x, displayedJobs
                     (jobsGrid (st (loadInitialJobs_resume
                                      (Resolved object_jobs) x)))
                   = object_jobs).
  { intros x. unfold jobsGrid. cbn. apply displayed_cards. }
  split.
  - split; [done|]. unfold w', loadInitialJobs. rewrite D.
    split; [done|]. split; [done|].
    unfold render. cbn [loadInitialJobs_resume loadInitialJobs_start world_of
                          send update st setJobs setSearchLoading loading user
                          jobs searchLoading].
    destruct (loading (st w)); [by left|].
    destruct (user (st w)); [|by right].
    split; [|by rewrite andb_true_r].
    unfold jobsGrid. cbn. by rewrite displayed_cards.
  - intros x. split; [done | apply D].
Qed.

(** C4.  With a search text that is empty or all white space,
    [handleSearch] returns at once: no call is sent, no function is left
    suspended, and the world (the job list with it) is the one before. *)
Theorem blank_search_does_nothing sys r :
  blank (searchQuery (st (world sys))) →
  handleSearch_start (world sys) = Returned (world sys)
  ∧ handleSearch r (world sys) = world sys
  ∧ step SearchRequested sys = Some sys.
Proof.
  intros Hb%trim_blank.
  assert (E : handleSearch_start (world sys) = Returned (world sys))
    by (unfold handleSearch_start; by rewrite Hb).
  split; [exact E|]. split.
  - unfold handleSearch. by rewrite E.
  - cbn. unfold launch. rewrite E. by destruct sys.
Qed.

Lemma blank_search_does_nothing_witness :
  let sys := {| world := withQuery "  " signedIn; inflight := ∅; fresh := 0 |} in
  step SearchRequested sys = Some sys ∧ calls (world sys) = [].
Proof.
  intros sys. split; [|reflexivity].
  refine (proj2 (proj2 (blank_search_does_nothing sys Rejected _))).
  change (blank (" " +:+ " " +:+ "")).
  apply blank_more.
  - unfold whitespace. do 5 apply list_elem_of_further. apply list_elem_of_here.
  - apply blank_more; [|apply blank_empty].
    unfold whitespace. do 5 apply list_elem_of_further. apply list_elem_of_here.
Defined.

Lemma handleSearch_start_sends w :
  ¬ blank (searchQuery (st w)) →
  handleSearch_start w
  = Suspended
      (send (ai_generateObject (handleSearch_prompt (searchQuery (st w)))
               handleSearch_schema)
         (update (setSearchLoading true) w))
      handleSearch_await.
Proof.
  intros H%not_blank_truthy. unfold handleSearch_start. by rewrite H.
Qed.

(** C5.  When the generation call rejects, the initial load and the
    search leave the job list as it was and end with the search-loading
    flag off; so does the continuation of either when the rejection
    comes to it in a world that moved on meanwhile. *)
Theorem generation_failure_keeps_jobs w :
  (jobs (st (loadInitialJobs Rejected w)) = jobs (st w)
   ∧ searchLoading (st (loadInitialJobs Rejected w)) = false)
  ∧ (¬ blank (searchQuery (st w)) →
     jobs (st (handleSearch Rejected w)) = jobs (st w)
     ∧ searchLoading (st (handleSearch Rejected w)) = false)
  ∧ (jobs (st (loadInitialJobs_resume Rejected w)) = jobs (st w)
     ∧ searchLoading (st (loadInitialJobs_resume Rejected w)) = false)
  ∧ (jobs (st (handleSearch_resume Rejected w)) = jobs (st w)
     ∧ searchLoading (st (handleSearch_resume Rejected w)) = false).
Proof.
  split; [done|]. split; [|done].
  intros H. unfold handleSearch. by rewrite (handleSearch_start_sends w H).
Qed.

Lemma not_blank_react : ¬ blank "react".
Proof. intros H%trim_empty_iff_blank. discriminate H. Qed.

Lemma generation_failure_keeps_jobs_witness :
  let w := withQuery "react" (update (setJobs [posting "j1" "Analyst"]) signedIn) in
  jobs (st (handleSearch Rejected w)) = [posting "j1" "Analyst"]
  ∧ searchLoading (st (handleSearch Rejected w)) = false.
Proof.
  intros w.
  exact (proj1 (proj2 (generation_failure_keeps_jobs w)) not_blank_react).
Defined.

(** ** [loadSavedJobs] *)

(** C6.  When the remote [list] rejects, [loadSavedJobs] reads the text
    under [savedJobs_<userId>]: if it is the JSON text of a list of ids,
    the saved set becomes that list (so a set written by [toggleSaveJob]
    comes back as it was written); if nothing is stored under the key, the
    saved set stays as it was.  Nothing else in the state and nothing in
    [localStorage] changes. *)
Theorem saved_jobs_fall_back_to_local u w :
  let key := "savedJobs_" +:+ User.id u in
  (∀ text ids,
     localStorage w !! key = Some text →
     JSON_parse text = ParsedIds ids →
     ∃ w', loadSavedJobs u Rejected w = Some w'
           ∧ savedJobs (st w') = ids
           ∧ st w' = setSavedJobs ids (st w)
           ∧ localStorage w' = localStorage w)
  ∧ (∀ ids,
       localStorage w !! key = Some (JSON_stringify ids) →
       ∃ w', loadSavedJobs u Rejected w = Some w' ∧ savedJobs (st w') = ids)
  ∧ (localStorage w !! key = None →
     ∃ w', loadSavedJobs u Rejected w = Some w'
           ∧ savedJobs (st w') = savedJobs (st w)
           ∧ st w' = st w
           ∧ localStorage w' = localStorage w).
Proof.
  intros key.
  assert (A : ∀ text ids,
            localStorage w !! key = Some text →
            JSON_parse text = ParsedIds ids →
            ∃ w', loadSavedJobs u Rejected w = Some w'
                  ∧ savedJobs (st w') = ids
                  ∧ st w' = setSavedJobs ids (st w)
                  ∧ localStorage w' = localStorage w).
  { intros text ids Hl Hp.
    unfold loadSavedJobs, loadSavedJobs_resume, localStorage_getItem.
    cbn [loadSavedJobs_start world_of console_print send localStorage].
    fold key. rewrite Hl.
    destruct text as [|c text]; [discriminate Hp|].
    cbn [truthy]. rewrite Hp. by eexists. }
  split; [exact A|]. split.
  - intros ids Hl.
    destruct (A _ ids Hl (JSON_parse_stringify ids)) as (w' & E & S & _).
    by exists w'.
  - intros Hl.
    unfold loadSavedJobs, loadSavedJobs_resume, localStorage_getItem.
    cbn [loadSavedJobs_start world_of console_print send localStorage].
    fold key. rewrite Hl. by eexists.
Qed.

Lemma saved_jobs_fall_back_to_local_witness :
  ∃ w',
    loadSavedJobs alice Rejected
      (localStorage_setItem "savedJobs_u1" (JSON_stringify ["job-1"; "job-2"])
         signedIn)
    = Some w'
    ∧ savedJobs (st w') = ["job-1"; "job-2"].
Proof.
  refine (proj1 (proj2 (saved_jobs_fall_back_to_local alice
                          (localStorage_setItem "savedJobs_u1"
                             (JSON_stringify ["job-1"; "job-2"]) signedIn)))
            ["job-1"; "job-2"] _).
  apply lookup_insert_eq.
Defined.

(** A stored empty text counts as no entry ([if (localSaved)]). *)
Lemma saved_jobs_empty_text u w :
  localStorage w !! storageKey u = Some "" →
  st <$> loadSavedJobs u Rejected w = Some (st w).
Proof.
  intros Hl.
  unfold loadSavedJobs, loadSavedJobs_resume, localStorage_getItem.
  cbn [loadSavedJobs_start world_of console_print send localStorage].
  fold (storageKey u). by rewrite Hl.
Qed.

(** When the remote [list] resolves, the saved set is the [jobId] of each
    record, in order, and [localStorage] is not read. *)
Lemma saved_jobs_from_remote u saved w :
  loadSavedJobs u (Resolved saved) w
  = Some (update (setSavedJobs (map SavedJob.jobId saved))
            (send (db_savedJobs_list (User.id u)) w)).
Proof. done. Qed.

(** ** The generation requests *)

(** C7.  The initial load sends the same request from every world: a
    prompt that does not mention the query and asks for 8 postings.  A
    search with a text that is not blank sends a prompt built around the
    query text that asks for 6 postings.  Both carry the same schema. *)
Theorem generation_requests :
  (∀ w, calls (world_of (loadInitialJobs_start w))
        = calls w ++
          [ai_generateObject
             "Generate 8 realistic entry-level job postings for new graduates in tech, marketing, finance, and other fields. Include diverse companies and locations."
             loadInitialJobs_schema])
  ∧ (∀ w, ¬ blank (searchQuery (st w)) →
          calls (world_of (handleSearch_start w))
          = calls w ++
            [ai_generateObject
               ("Find entry-level jobs for new graduates related to: "
                +:+ String dquote (searchQuery (st w))
                +:+ String dquote
                      ". Generate 6 realistic job postings that match this search query.")
               handleSearch_schema])
  ∧ handleSearch_schema = loadInitialJobs_schema.
Proof.
  split; [done|]. split; [|done].
  intros w H. by rewrite (handleSearch_start_sends w H).
Qed.

Lemma generation_requests_witness :
  calls (world_of (handleSearch_start (withQuery "react" signedIn)))
  = [ai_generateObject
       ("Find entry-level jobs for new graduates related to: "
        +:+ String dquote "react"
        +:+ String dquote
              ". Generate 6 realistic job postings that match this search query.")
       handleSearch_schema].
Proof.
  exact (proj1 (proj2 generation_requests) (withQuery "react" signedIn)
           not_blank_react).
Defined.

(** ** Overlapping searches *)

Lemma run_cons e es sys sys' :
  step e sys = Some sys' → run (e :: es) sys = run es sys'.
Proof. intros H. cbn [run]. by rewrite H. Qed.

Lemma step_QueryTyped q sys :
  step (QueryTyped q) sys
  = Some {| world := update (setSearchQuery q) (world sys);
            inflight := inflight sys; fresh := fresh sys |}.
Proof. done. Qed.

Lemma step_SearchRequested sys :
  ¬ blank (searchQuery (st (world sys))) →
  step SearchRequested sys
  = Some {| world :=
              send (ai_generateObject
                      (handleSearch_prompt (searchQuery (st (world sys))))
                      handleSearch_schema)
                (update (setSearchLoading true) (world sys));
            inflight := <[fresh sys := handleSearch_await]> (inflight sys);
            fresh := S (fresh sys) |}.
Proof.
  intros H. cbn [step]. unfold launch.
  by rewrite (handleSearch_start_sends _ H).
Qed.

Lemma step_search_answered t r sys :
  inflight sys !! t = Some handleSearch_await →
  step (GenerateAnswered t r) sys
  = Some (land t (handleSearch_resume r (world sys)) sys).
Proof. intros H. cbn [step]. by rewrite H. Qed.

(** C8.  Two searches, the second submitted while the first is still
    waiting: both stay in flight (nothing cancels the first), and the job
    list ends as the answer that arrives last, whichever request it
    belongs to.  If the answer to the first request arrives last, it
    overwrites the answer to the second.  That list is the one on
    display: the search-loading flag is off, the grid shows one card for
    each posting of the last answer, in order, and when the main page is
    what is drawn, that grid is on it. *)
Theorem overlapping_searches_last_answer_wins sys q1 q2 answer1 answer2 :
  ¬ blank q1 → ¬ blank q2 →
  let t1 := fresh sys in
  let t2 := S (fresh sys) in
  ∃ both,
    run [QueryTyped q1; SearchRequested; QueryTyped q2; SearchRequested] sys
    = Some both
    ∧ inflight both !! t1 = Some handleSearch_await
    ∧ inflight both !! t2 = Some handleSearch_await
    ∧ calls (world both)
      = calls (world sys) ++
        [ai_generateObject (handleSearch_prompt q1) handleSearch_schema;
         ai_generateObject (handleSearch_prompt q2) handleSearch_schema]
    ∧ (∃ last,
         run [GenerateAnswered t1 (Resolved answer1);
              GenerateAnswered t2 (Resolved answer2)] both = Some last
         ∧ jobs (st (world last)) = answer2
         ∧ inflight last !! t1 = None ∧ inflight last !! t2 = None
         ∧ searchLoading (st (world last)) = false
         ∧ jobsGrid (st (world last))
           = Cards (map (λ job, (job, includes (savedJobs (st (world sys)))
                                        (Job.id job))) answer2)
         ∧ displayedJobs (jobsGrid (st (world last))) = answer2
         ∧ match render (st (world last)) with
           | MainPage _ searchDisabled _ grid noJobsFound =>
               displayedJobs grid = answer2
               ∧ searchDisabled = false
               ∧ noJobsFound = Nat.eqb (length answer2) 0
           | _ => loading (st (world sys)) = true
                  ∨ user (st (world sys)) = None
           end)
    ∧ (∃ last,
         run [GenerateAnswered t2 (Resolved answer2);
              GenerateAnswered t1 (Resolved answer1)] both = Some last
         ∧ jobs (st (world last)) = answer1
         ∧ inflight last !! t1 = None ∧ inflight last !! t2 = None
         ∧ searchLoading (st (world last)) = false
         ∧ jobsGrid (st (world last))
           = Cards (map (λ job, (job, includes (savedJobs (st (world sys)))
                                        (Job.id job))) answer1)
         ∧ displayedJobs (jobsGrid (st (world last))) = answer1
         ∧ match render (st (world last)) with
           | MainPage _ searchDisabled _ grid noJobsFound =>
               displayedJobs grid = answer1
               ∧ searchDisabled = false
               ∧ noJobsFound = Nat.eqb (length answer1) 0
           | _ => loading (st (world sys)) = true
                  ∨ user (st (world sys)) = None
           end).
Proof.
  intros H1 H2 t1 t2. eexists. split.
  { erewrite run_cons by apply step_QueryTyped.
    erewrite run_cons by (apply step_SearchRequested; exact H1).
    erewrite run_cons by apply step_QueryTyped.
    erewrite run_cons by (apply step_SearchRequested; exact H2).
    reflexivity. }
  cbn [inflight world fresh].
  assert (Ne : t1 ≠ t2) by (unfold t1, t2; lia).
  split; [by rewrite lookup_insert_ne, lookup_insert_eq by done|].
  split; [by rewrite lookup_insert_eq|].
  split; [cbn; by rewrite <- app_assoc|].
  assert (Shown : ∀ answer : list Job.t,
            displayedJobs
              (Cards (map (λ job, (job, includes (savedJobs (st (world sys)))
                                          (Job.id job))) answer))
            = answer)
    by (intros answer; apply displayed_cards).
  split.
  - eexists. split.
    { erewrite run_cons
        by (apply step_search_answered; cbn [inflight];
            by rewrite lookup_insert_ne, lookup_insert_eq by done).
      erewrite run_cons
        by (apply step_search_answered; cbn [land inflight];
            by rewrite lookup_delete_ne, lookup_insert_eq by done).
      reflexivity. }
    split; [done|]. cbn [land inflight]. split.
    { by rewrite lookup_delete_ne, lookup_delete_eq by done. }
    split; [by rewrite lookup_delete_eq|].
    split; [done|]. split; [done|].
    split; [apply Shown|].
    unfold render, jobsGrid. cbn -[includes].
    destruct (loading (st (world sys))); [by left|].
    destruct (user (st (world sys))); [|by right].
    split; [apply Shown|]. split; [done|]. by rewrite andb_true_r.
  - eexists. split.
    { erewrite run_cons
        by (apply step_search_answered; cbn [inflight];
            by rewrite lookup_insert_eq).
      erewrite run_cons
        by (apply step_search_answered; cbn [land inflight];
            by rewrite lookup_delete_ne, lookup_insert_ne, lookup_insert_eq
              by done).
      reflexivity. }
    split; [done|]. cbn [land inflight]. split.
    { by rewrite lookup_delete_eq. }
    split; [by rewrite lookup_delete_ne, lookup_delete_eq by done|].
    split; [done|]. split; [done|].
    split; [apply Shown|].
    unfold render, jobsGrid. cbn -[includes].
    destruct (loading (st (world sys))); [by left|].
    destruct (user (st (world sys))); [|by right].
    split; [apply Shown|]. split; [done|]. by rewrite andb_true_r.
Qed.

Lemma not_blank_go : ¬ blank "go".
Proof. intros H%trim_empty_iff_blank. discriminate H. Qed.

Lemma overlapping_searches_last_answer_wins_witness :
  ∃ both,
    run [QueryTyped "react"; SearchRequested; QueryTyped "go"; SearchRequested]
      signedInSystem = Some both
    ∧ ∃ last,
        run [GenerateAnswered 1 (Resolved [posting "g1" "Go developer"]);
             GenerateAnswered 0 (Resolved [posting "r1" "React developer"])]
          both = Some last
        ∧ jobs (st (world last)) = [posting "r1" "React developer"]
        ∧ displayedJobs (jobsGrid (st (world last)))
          = [posting "r1" "React developer"].
Proof.
  destruct (overlapping_searches_last_answer_wins signedInSystem "react" "go"
              [posting "r1" "React developer"] [posting "g1" "Go developer"]
              not_blank_react not_blank_go)
    as (both & Hrun & _ & _ & _ & _
        & (last & Hlast & Hjobs & _ & _ & _ & _ & Hshown & _)).
  exists both. split; [exact Hrun|].
  exists last. split; [exact Hlast|]. split; [exact Hjobs | exact Hshown].
Defined.

(** An answer that is a rejection writes no job list: the list then stays
    what the earlier answer made it. *)
Lemma search_answer_jobs r w :
  jobs (st (handleSearch_resume r w))
  = match r with Resolved object_jobs => object_jobs | Rejected => jobs (st w) end.
Proof. by destruct r. Qed.

(** The effect that runs when a user becomes available starts both loads:
    the [list] call first, then the generation call, each left in
    flight. *)
Lemma user_effect_starts_both_loads sys u :
  user (st (world sys)) = Some u →
  ∃ sys',
    step UserEffect sys = Some sys'
    ∧ calls (world sys')
      = calls (world sys) ++
        [db_savedJobs_list (User.id u);
         ai_generateObject loadInitialJobs_prompt loadInitialJobs_schema]
    ∧ searchLoading (st (world sys')) = true
    ∧ inflight sys' !! fresh sys = Some (loadSavedJobs_await u)
    ∧ inflight sys' !! S (fresh sys) = Some loadInitialJobs_await.
Proof.
  intros Hu. eexists. split; [cbn [step]; by rewrite Hu|].
  cbn. split; [by rewrite <- app_assoc|]. split; [done|].
  split; [|by rewrite lookup_insert_eq].
  rewrite lookup_insert_ne by lia. by rewrite lookup_insert_eq.
Qed.

(** Without a user the effect does nothing. *)
Lemma user_effect_without_user sys :
  user (st (world sys)) = None → step UserEffect sys = Some sys.
Proof. intros Hu. cbn [step]. by rewrite Hu. Qed.

(** ** The whole calls and the event system agree *)

(** A click whose remote call is answered before anything else happens
    is one whole call of [toggleSaveJob]. *)
Lemma toggle_as_events sys jobId now iso r w k :
  toggleSaveJob_start now iso jobId (world sys) = Suspended w k →
  run [BookmarkClicked jobId now iso; MutationAnswered (fresh sys) r] sys
  = Some {| world := toggleSaveJob r now iso jobId (world sys);
            inflight := delete (fresh sys) (<[fresh sys := k]> (inflight sys));
            fresh := S (fresh sys) |}.
Proof.
  intros E. cbn [run step mbind option_bind]. unfold launch, toggleSaveJob.
  rewrite E. cbn [inflight world].
  rewrite lookup_insert_eq. unfold toggleSaveJob_start in E.
  destruct (includes _ _); [by inversion E|].
  destruct (user (st (world sys))); by inversion E.
Qed.

(** A search answered before anything else happens is one whole call of
    [handleSearch]. *)
Lemma search_as_events sys r :
  ¬ blank (searchQuery (st (world sys))) →
  run [SearchRequested; GenerateAnswered (fresh sys) r] sys
  = Some {| world := handleSearch r (world sys);
            inflight := delete (fresh sys)
                          (<[fresh sys := handleSearch_await]> (inflight sys));
            fresh := S (fresh sys) |}.
Proof.
  intros H.
  erewrite run_cons by (by apply step_SearchRequested).
  erewrite run_cons
    by (apply step_search_answered; cbn [inflight]; apply lookup_insert_eq).
  unfold handleSearch. by rewrite (handleSearch_start_sends _ H).
Qed.

(** Two clicks on different postings before either remote call is
    answered: each continuation writes the set its own closure captured,
    so the bookmark of the call answered first is lost. *)
Lemma overlapping_toggles_lose_an_update :
  ∃ last,
    run [BookmarkClicked "job-1" 5 "1970-01-01T00:00:00.005Z";
         BookmarkClicked "job-2" 6 "1970-01-01T00:00:00.006Z";
         MutationAnswered 0 (Resolved ());
         MutationAnswered 1 (Resolved ())] signedInSystem = Some last
    ∧ savedJobs (st (world last)) = ["job-2"].
Proof. eexists. split; reflexivity. Qed.

(** * Further properties of the component *)

(** ** The saved set under [toggleSaveJob] *)

Lemma toggleSaveJob_savedJobs w r now iso jobId :
  savedJobs (st (toggleSaveJob r now iso jobId w))
  = toggled (savedJobs (st w)) jobId.
Proof.
  unfold toggleSaveJob, toggleSaveJob_start, toggled.
  destruct (includes _ _); [by rewrite resume_delete_st|].
  destruct (user (st w)); [by rewrite resume_create_st|done].
Qed.

Lemma filter_out_twice (x : string) (l : list string) :
  filter (λ id, id ≠ x) (filter (λ id, id ≠ x) l) = filter (λ id, id ≠ x) l.
Proof.
  apply filter_out_absent. intros [H _]%list_elem_of_filter. by apply H.
Qed.

Lemma toggled_others (saved : list string) jobId :
  filter (λ id, id ≠ jobId) (toggled saved jobId)
  = filter (λ id, id ≠ jobId) saved.
Proof.
  unfold toggled. destruct (includes saved jobId); [apply filter_out_twice|].
  rewrite filter_app, filter_cons_False by (intros H; by apply H).
  by rewrite filter_nil, app_nil_r.
Qed.

Lemma toggled_elem (saved : list string) jobId :
  jobId ∈ toggled saved jobId ↔ jobId ∉ saved.
Proof.
  unfold toggled. destruct (includes saved jobId) eqn:E.
  - apply includes_true in E. split; [|done].
    intros [H _]%list_elem_of_filter. by destruct H.
  - apply includes_false in E. split; [done|]. intros _.
    apply elem_of_app. right. by apply list_elem_of_singleton.
Qed.

Lemma filter_only_absent (x : string) (l : list string) :
  x ∉ l → filter (λ id, id = x) l = [].
Proof.
  induction l as [|y l IH]; [done|].
  intros [Hy Hl]%not_elem_of_cons.
  rewrite filter_cons_False by congruence. by apply IH.
Qed.

Lemma toggled_once (saved : list string) jobId :
  (length (filter (λ id, id = jobId) (toggled saved jobId)) ≤ 1)%nat.
Proof.
  unfold toggled. destruct (includes saved jobId) eqn:E.
  - rewrite filter_only_absent; [cbn; lia|].
    intros [H _]%list_elem_of_filter. by apply H.
  - apply includes_false in E.
    rewrite filter_app, filter_only_absent by done.
    rewrite filter_cons_True by done. cbn. lia.
Qed.

Lemma toggled_thrice (saved : list string) jobId :
  toggled (toggled (toggled saved jobId) jobId) jobId = toggled saved jobId.
Proof.
  assert (A : ∀ l : list string, jobId ∉ l →
                toggled (toggled l jobId) jobId = l).
  { intros l Hl. unfold toggled at 2.
    rewrite (proj2 (includes_false l jobId) Hl).
    unfold toggled.
    rewrite (proj2 (includes_true (l ++ [jobId]) jobId)).
    - by apply filter_out_last.
    - apply elem_of_app. right. by apply list_elem_of_singleton. }
  destruct (includes saved jobId) eqn:E.
  - assert (T : toggled saved jobId = filter (λ id, id ≠ jobId) saved)
      by (unfold toggled; by rewrite E).
    rewrite T. apply A. intros [H _]%list_elem_of_filter. by apply H.
  - apply includes_false in E. by rewrite (A saved E).
Qed.

(** X1.  A toggle flips whether its id is saved and keeps every other id:
    the other ids stay in the same order and number, and the toggled id
    occurs at most once afterwards.  This holds for every answer of the
    remote call. *)
Theorem toggle_flips_one_id w r now iso jobId :
  let before := savedJobs (st w) in
  let after := savedJobs (st (toggleSaveJob r now iso jobId w)) in
  (jobId ∈ after ↔ jobId ∉ before)
  ∧ filter (λ id, id ≠ jobId) after = filter (λ id, id ≠ jobId) before
  ∧ (length (filter (λ id, id = jobId) after) ≤ 1)%nat.
Proof.
  intros before after. unfold after. rewrite toggleSaveJob_savedJobs.
  split; [apply toggled_elem|]. split; [apply toggled_others|].
  apply toggled_once.
Qed.

Lemma storageKey_inj u u' :
  storageKey u = storageKey u' → User.id u = User.id u'.
Proof. unfold storageKey. intros H. by inversion H. Qed.

(** X2.  With a user signed in, a toggle writes nothing but the saved set
    and the entry of that user: the other five state cells keep their
    values, and every other key of [localStorage] (the entry of any other
    user among them) keeps its text or its absence. *)
Theorem toggle_touches_only_own_entry w u r now iso jobId :
  user (st w) = Some u →
  let w' := toggleSaveJob r now iso jobId w in
  (user (st w') = user (st w)
   ∧ loading (st w') = loading (st w)
   ∧ searchQuery (st w') = searchQuery (st w)
   ∧ jobs (st w') = jobs (st w)
   ∧ searchLoading (st w') = searchLoading (st w))
  ∧ (∀ key, key ≠ "savedJobs_" +:+ User.id u →
            localStorage w' !! key = localStorage w !! key)
  ∧ (∀ u', User.id u' ≠ User.id u →
           localStorage w' !! ("savedJobs_" +:+ User.id u')
           = localStorage w !! ("savedJobs_" +:+ User.id u')).
Proof.
  intros Hu w'.
  destruct (toggleSaveJob_st w u r now iso jobId Hu) as [S L].
  fold w' in S, L.
  assert (K : ∀ key, key ≠ "savedJobs_" +:+ User.id u →
                localStorage w' !! key = localStorage w !! key).
  { intros key Hk. rewrite L. apply lookup_insert_ne.
    intros E. apply Hk. by rewrite <- E. }
  split; [by rewrite S|]. split; [exact K|].
  intros u' Hne. apply K. intros E. by apply Hne, storageKey_inj.
Qed.

Lemma toggle_touches_only_own_entry_witness :
  let w := localStorage_setItem "savedJobs_u2" (JSON_stringify ["x"]) signedIn in
  localStorage (toggleSaveJob Rejected 5 "1970-01-01T00:00:00.005Z" "job-1" w)
    !! "savedJobs_u2"
  = Some (JSON_stringify ["x"]).
Proof.
  intros w.
  destruct (toggle_touches_only_own_entry w alice Rejected 5
              "1970-01-01T00:00:00.005Z" "job-1" eq_refl) as (_ & K & _).
  rewrite K; [apply lookup_insert_eq | discriminate].
Defined.

Lemma toggleSaveJob_user w u r now iso jobId :
  user (st w) = Some u → user (st (toggleSaveJob r now iso jobId w)) = Some u.
Proof.
  intros Hu.
  destruct (toggleSaveJob_st w u r now iso jobId Hu) as [S _]. by rewrite S.
Qed.

(** X3.  With a user signed in, three toggles of one id leave the state
    cells and [localStorage] exactly as one toggle does, whatever the
    saved set was (the id saved or not, once or several times) and
    whatever the remote calls answered. *)
Theorem three_toggles_are_one
    w u jobId r1 r2 r3 now1 iso1 now2 iso2 now3 iso3 :
  user (st w) = Some u →
  let w1 := toggleSaveJob r1 now1 iso1 jobId w in
  let w3 := toggleSaveJob r3 now3 iso3 jobId
              (toggleSaveJob r2 now2 iso2 jobId w1) in
  st w3 = st w1 ∧ localStorage w3 = localStorage w1.
Proof.
  intros Hu. cbv zeta.
  remember (toggleSaveJob r1 now1 iso1 jobId w) as w1 eqn:E1.
  remember (toggleSaveJob r2 now2 iso2 jobId w1) as w2 eqn:E2.
  remember (toggleSaveJob r3 now3 iso3 jobId w2) as w3 eqn:E3.
  assert (U1 : user (st w1) = Some u)
    by (rewrite E1; by apply toggleSaveJob_user).
  assert (U2 : user (st w2) = Some u)
    by (rewrite E2; by apply toggleSaveJob_user).
  destruct (toggleSaveJob_st w u r1 now1 iso1 jobId Hu) as [S1 L1].
  destruct (toggleSaveJob_st w1 u r2 now2 iso2 jobId U1) as [S2 L2].
  destruct (toggleSaveJob_st w2 u r3 now3 iso3 jobId U2) as [S3 L3].
  rewrite <- E1 in S1, L1. rewrite <- E2 in S2, L2. rewrite <- E3 in S3, L3.
  assert (T : toggled (savedJobs (st w2)) jobId
              = toggled (savedJobs (st w)) jobId).
  { rewrite S2. cbn [savedJobs setSavedJobs]. rewrite S1.
    cbn [savedJobs setSavedJobs]. apply toggled_thrice. }
  split.
  - rewrite S3, T, S2, S1. done.
  - rewrite L3, T, L2, L1. by rewrite !insert_insert_eq.
Qed.

Lemma three_toggles_are_one_witness :
  let w := withSaved ["a"; "job-1"; "b"; "job-1"] signedIn in
  let w1 := toggleSaveJob Rejected 5 "1970-01-01T00:00:00.005Z" "job-1" w in
  let w3 := toggleSaveJob Rejected 9 "1970-01-01T00:00:00.009Z" "job-1"
              (toggleSaveJob (Resolved ()) 7 "1970-01-01T00:00:00.007Z"
                 "job-1" w1) in
  st w3 = st w1 ∧ localStorage w3 = localStorage w1.
Proof.
  intros w w1 w3.
  exact (three_toggles_are_one w alice "job-1" Rejected (Resolved ()) Rejected
           5 "1970-01-01T00:00:00.005Z" 7 "1970-01-01T00:00:00.007Z"
           9 "1970-01-01T00:00:00.009Z" eq_refl).
Defined.

(** X4.  Two toggles of an id that is saved leave it saved once, at the
    end, behind the other ids in their old order; so the saved list is
    the one before exactly when the id was its last entry and occurred
    nowhere else. *)
Theorem two_toggles_move_to_end w jobId r1 r2 now1 iso1 now2 iso2 :
  jobId ∈ savedJobs (st w) →
  let before := savedJobs (st w) in
  let after := savedJobs (st (toggleSaveJob r2 now2 iso2 jobId
                                (toggleSaveJob r1 now1 iso1 jobId w))) in
  after = filter (λ id, id ≠ jobId) before ++ [jobId]
  ∧ (after = before ↔ ∃ others, before = others ++ [jobId] ∧ jobId ∉ others).
Proof.
  intros Hin before after.
  assert (N : jobId ∉ filter (λ id, id ≠ jobId) before)
    by (intros [H _]%list_elem_of_filter; by apply H).
  assert (A : after = filter (λ id, id ≠ jobId) before ++ [jobId]).
  { unfold after. rewrite !toggleSaveJob_savedJobs. fold before.
    unfold toggled at 2. rewrite (proj2 (includes_true before jobId) Hin).
    unfold toggled. by rewrite (proj2 (includes_false _ _) N). }
  split; [exact A|]. rewrite A. split.
  - intros E. exists (filter (λ id, id ≠ jobId) before). by split.
  - intros (others & E & Ho). rewrite E at 1.
    by rewrite filter_out_last, <- E.
Qed.

Lemma two_toggles_move_to_end_witness :
  savedJobs (st (toggleSaveJob (Resolved ()) 7 "1970-01-01T00:00:00.007Z" "a"
                   (toggleSaveJob (Resolved ()) 5 "1970-01-01T00:00:00.005Z"
                      "a" (withSaved ["a"; "b"] signedIn))))
  = ["b"; "a"].
Proof.
  refine (proj1 (two_toggles_move_to_end (withSaved ["a"; "b"] signedIn) "a"
                   (Resolved ()) (Resolved ())
                   5 "1970-01-01T00:00:00.005Z" 7 "1970-01-01T00:00:00.007Z" _)).
  apply list_elem_of_here.
Defined.

(** ** The local copy as a backup *)

Lemma loadSavedJobs_fallback u w text ids :
  localStorage w !! storageKey u = Some text →
  JSON_parse text = ParsedIds ids →
  loadSavedJobs u Rejected w
  = Some (update (setSavedJobs ids)
            (console_print "Error loading saved jobs:"
               (send (db_savedJobs_list (User.id u)) w))).
Proof.
  intros Hl Hp.
  unfold loadSavedJobs, loadSavedJobs_resume, localStorage_getItem.
  cbn [loadSavedJobs_start world_of console_print send localStorage].
  fold (storageKey u). rewrite Hl.
  destruct text as [|c text]; [discriminate Hp|].
  cbn [truthy]. by rewrite Hp.
Qed.

(** X5.  What a signed-in user's toggle leaves in [localStorage] brings
    the saved set back: in any later world with that [localStorage] (a
    new session, whatever its state cells hold), a load for the same user
    whose remote [list] rejects sets the saved set to the list the toggle
    produced, same ids in the same order. *)
Theorem toggled_set_survives_reload w u r now iso jobId later :
  user (st w) = Some u →
  localStorage later = localStorage (toggleSaveJob r now iso jobId w) →
  ∃ w', loadSavedJobs u Rejected later = Some w'
        ∧ savedJobs (st w') = savedJobs (st (toggleSaveJob r now iso jobId w))
        ∧ savedJobs (st w') = toggled (savedJobs (st w)) jobId.
Proof.
  intros Hu Hl.
  destruct (toggleSaveJob_st w u r now iso jobId Hu) as [S L].
  eexists. split.
  - apply (loadSavedJobs_fallback u later
             (JSON_stringify (toggled (savedJobs (st w)) jobId))
             (toggled (savedJobs (st w)) jobId)).
    + rewrite Hl, L. apply lookup_insert_eq.
    + apply JSON_parse_stringify.
  - by rewrite S.
Qed.

Lemma toggled_set_survives_reload_witness :
  ∃ w',
    loadSavedJobs alice Rejected
      {| st := setUser (Some alice) initialState;
         localStorage :=
           localStorage (toggleSaveJob Rejected 5 "1970-01-01T00:00:00.005Z"
                           "job-2" (withSaved ["job-1"] signedIn));
         console := []; calls := [] |}
    = Some w'
    ∧ savedJobs (st w') = ["job-1"; "job-2"].
Proof.
  destruct (toggled_set_survives_reload (withSaved ["job-1"] signedIn) alice
              Rejected 5 "1970-01-01T00:00:00.005Z" "job-2"
              {| st := setUser (Some alice) initialState;
                 localStorage :=
                   localStorage (toggleSaveJob Rejected 5
                                   "1970-01-01T00:00:00.005Z" "job-2"
                                   (withSaved ["job-1"] signedIn));
                 console := []; calls := [] |}
              eq_refl eq_refl) as (w' & E & _ & T).
  exists w'. split; [exact E | exact T].
Defined.

(** ** Bookmark icons *)

Lemma toggleSaveJob_state w r now iso jobId :
  st (toggleSaveJob r now iso jobId w)
  = setSavedJobs (toggled (savedJobs (st w)) jobId) (st w).
Proof.
  unfold toggleSaveJob, toggleSaveJob_start, toggled.
  destruct (includes _ _); [by rewrite resume_delete_st|].
  destruct (user (st w)); [by rewrite resume_create_st|done].
Qed.

Lemma includes_toggled (saved : list string) jobId x :
  includes (toggled saved jobId) x
  = if decide (x = jobId) then negb (includes saved jobId)
    else includes saved x.
Proof.
  unfold includes at 1. destruct (decide (x = jobId)) as [->|Hne].
  - destruct (includes saved jobId) eqn:E; cbn.
    + apply bool_decide_eq_false. apply includes_true in E.
      intros H%toggled_elem. by apply H.
    + apply bool_decide_eq_true. apply includes_false in E.
      by apply toggled_elem.
  - assert (M : x ∈ toggled saved jobId ↔ x ∈ saved).
    { transitivity (x ∈ filter (λ id, id ≠ jobId) (toggled saved jobId)).
      - rewrite list_elem_of_filter. tauto.
      - rewrite toggled_others, list_elem_of_filter. tauto. }
    unfold includes. by apply bool_decide_ext.
Qed.

(** X6.  A toggle flips the bookmark icon of every card whose posting has
    the toggled id (all of them, when several postings share the id) and
    of no other card; a grid of skeletons stays a grid of skeletons. *)
Theorem toggle_flips_bookmark_icons w r now iso jobId :
  jobsGrid (st (toggleSaveJob r now iso jobId w))
  = match jobsGrid (st w) with
    | Skeletons n => Skeletons n
    | Cards cards =>
        Cards (map (λ card : Job.t * bool,
                      (card.1,
                       if decide (Job.id card.1 = jobId)
                       then negb card.2 else card.2))
                 cards)
    end.
Proof.
  rewrite toggleSaveJob_state. unfold jobsGrid.
  cbn [searchLoading setSavedJobs jobs savedJobs].
  destruct (searchLoading (st w)); [done|].
  f_equal. rewrite map_map. apply map_ext. intros job. cbn [fst snd].
  rewrite includes_toggled.
  destruct (decide (Job.id job = jobId)) as [->|]; done.
Qed.

(** ** Loading flag, answers out of order, change of user *)

(** X7.  With two searches in flight, the first answer to arrive, for
    either request and whether it resolves or rejects, switches the
    search-loading flag off although the other search is still waiting:
    the flag does not count the calls in flight. *)
Theorem first_answer_clears_loading_flag sys q1 q2 r :
  ¬ blank q1 → ¬ blank q2 →
  let t1 := fresh sys in
  let t2 := S (fresh sys) in
  let submitted :=
    [QueryTyped q1; SearchRequested; QueryTyped q2; SearchRequested] in
  (∃ sys', run (submitted ++ [GenerateAnswered t1 r]) sys = Some sys'
           ∧ searchLoading (st (world sys')) = false
           ∧ inflight sys' !! t2 = Some handleSearch_await)
  ∧ (∃ sys', run (submitted ++ [GenerateAnswered t2 r]) sys = Some sys'
             ∧ searchLoading (st (world sys')) = false
             ∧ inflight sys' !! t1 = Some handleSearch_await).
Proof.
  intros H1 H2 t1 t2 submitted.
  assert (Ne : t1 ≠ t2) by (unfold t1, t2; lia).
  split; eexists; (split; [
    unfold submitted; cbn [app];
    erewrite run_cons by apply step_QueryTyped;
    erewrite run_cons by (apply step_SearchRequested; exact H1);
    erewrite run_cons by apply step_QueryTyped;
    erewrite run_cons by (apply step_SearchRequested; exact H2);
    erewrite run_cons; [reflexivity|]; apply step_search_answered;
    cbn [inflight fresh] |]).
  - by rewrite lookup_insert_ne, lookup_insert_eq by done.
  - split; [by destruct r|]. cbn [land inflight fresh].
    by rewrite lookup_delete_ne, lookup_insert_eq by done.
  - by rewrite lookup_insert_eq.
  - split; [by destruct r|]. cbn [land inflight fresh].
    by rewrite lookup_delete_ne, lookup_insert_ne, lookup_insert_eq by done.
Qed.

Lemma first_answer_clears_loading_flag_witness :
  ∃ sys',
    run [QueryTyped "react"; SearchRequested; QueryTyped "go"; SearchRequested;
         GenerateAnswered 1 Rejected] signedInSystem = Some sys'
    ∧ searchLoading (st (world sys')) = false
    ∧ inflight sys' !! 0%nat = Some handleSearch_await.
Proof.
  exact (proj2 (first_answer_clears_loading_flag signedInSystem "react" "go"
                  Rejected not_blank_react not_blank_go)).
Defined.

Lemma step_UserEffect sys u :
  user (st (world sys)) = Some u →
  step UserEffect sys
  = Some {| world :=
              send (ai_generateObject loadInitialJobs_prompt
                      loadInitialJobs_schema)
                (update (setSearchLoading true)
                   (send (db_savedJobs_list (User.id u)) (world sys)));
            inflight :=
              <[S (fresh sys) := loadInitialJobs_await]>
                (<[fresh sys := loadSavedJobs_await u]> (inflight sys));
            fresh := S (S (fresh sys)) |}.
Proof. intros Hu. cbn [step]. by rewrite Hu. Qed.

(** The two continuations in either order, as far as state cells,
    [localStorage] and calls go (the console lines come in the order of
    the answers). *)
Lemma resumes_commute u rl rg w :
  (λ x, (st x, localStorage x, calls x))
    <$> loadSavedJobs_resume u rl (loadInitialJobs_resume rg w)
  = (λ x, (st x, localStorage x, calls x))
      <$> (loadInitialJobs_resume rg <$> loadSavedJobs_resume u rl w).
Proof.
  destruct rl as [saved|], rg as [js|];
    unfold loadSavedJobs_resume, localStorage_getItem;
    cbn [loadInitialJobs_resume update console_print localStorage];
    try reflexivity;
    (destruct (localStorage w !! ("savedJobs_" +:+ User.id u)) as [text|];
     [destruct text as [|c text]; [reflexivity|];
      cbn [truthy]; destruct (JSON_parse (String c text)); reflexivity
     |reflexivity]).
Qed.

Lemma load_answers_commute_aux u rl rg w (m : gmap nat Pending) (n : nat) :
  let sys1 := {| world := w;
                 inflight := <[S n := loadInitialJobs_await]>
                               (<[n := loadSavedJobs_await u]> m);
                 fresh := S (S n) |} in
  (λ s : System, (st (world s), localStorage (world s), calls (world s),
                  inflight s))
    <$> run [ListAnswered n rl; GenerateAnswered (S n) rg] sys1
  = (λ s : System, (st (world s), localStorage (world s), calls (world s),
                    inflight s))
      <$> run [GenerateAnswered (S n) rg; ListAnswered n rl] sys1.
Proof.
  intros sys1.
  assert (Ne : n ≠ S n) by lia.
  assert (I1 : inflight sys1 !! n = Some (loadSavedJobs_await u))
    by (cbn; by rewrite lookup_insert_ne, lookup_insert_eq by done).
  assert (I2 : inflight sys1 !! S n = Some loadInitialJobs_await)
    by (cbn; by rewrite lookup_insert_eq).
  pose proof (resumes_commute u rl rg w) as C.
  cbn [run step]. rewrite I1, I2. cbn [mbind option_bind land inflight].
  rewrite lookup_delete_ne, I1 by done.
  cbn [world land sys1].
  destruct (loadSavedJobs_resume u rl w) as [a|],
           (loadSavedJobs_resume u rl (loadInitialJobs_resume rg w)) as [b|];
    cbn [fmap option_fmap option_map mbind option_bind land inflight world]
      in C |- *; [|discriminate C|discriminate C|reflexivity].
  rewrite lookup_delete_ne, I2 by lia.
  cbn [fmap option_fmap option_map mbind option_bind land inflight world].
  injection C as C1 C2 C3. rewrite delete_delete. by rewrite C1, C2, C3.
Qed.

(** X8.  The two loads that start when a user becomes available do not
    depend on each other: whichever of the [list] answer and the
    generation answer arrives first, the state cells, [localStorage], the
    calls sent and the functions left in flight end the same (and a local
    text that cannot be read stops both orders alike). *)
Theorem load_answers_commute sys u rl rg :
  user (st (world sys)) = Some u →
  let seen := λ s : System,
    (st (world s), localStorage (world s), calls (world s), inflight s) in
  seen <$> run [UserEffect; ListAnswered (fresh sys) rl;
                GenerateAnswered (S (fresh sys)) rg] sys
  = seen <$> run [UserEffect; GenerateAnswered (S (fresh sys)) rg;
                  ListAnswered (fresh sys) rl] sys.
Proof.
  intros Hu seen.
  rewrite !(run_cons _ _ _ _ (step_UserEffect sys u Hu)).
  apply load_answers_commute_aux.
Qed.

Lemma load_answers_commute_witness :
  st ∘ world
    <$> run [UserEffect; GenerateAnswered 1 (Resolved [posting "j1" "Analyst"]);
             ListAnswered 0
               (Resolved [{| SavedJob.id := "saved_5"; SavedJob.userId := "u1";
                             SavedJob.jobId := "j1";
                             SavedJob.createdAt := "1970-01-01T00:00:00.005Z" |}])]
          signedInSystem
  = st ∘ world
      <$> run [UserEffect;
               ListAnswered 0
                 (Resolved [{| SavedJob.id := "saved_5"; SavedJob.userId := "u1";
                               SavedJob.jobId := "j1";
                               SavedJob.createdAt := "1970-01-01T00:00:00.005Z" |}]);
               GenerateAnswered 1 (Resolved [posting "j1" "Analyst"])]
            signedInSystem.
Proof.
  pose proof (load_answers_commute signedInSystem alice
                (Resolved [{| SavedJob.id := "saved_5"; SavedJob.userId := "u1";
                              SavedJob.jobId := "j1";
                              SavedJob.createdAt := "1970-01-01T00:00:00.005Z" |}])
                (Resolved [posting "j1" "Analyst"]) eq_refl) as H.
  cbv zeta in H. symmetry.
  apply (f_equal (fmap (λ x : State * gmap string string * list Call
                               * gmap nat Pending, x.1.1.1))) in H.
  rewrite <- !option_fmap_compose in H. exact H.
Defined.

Lemma step_AuthStateChanged u isLoading sys :
  step (AuthStateChanged u isLoading) sys
  = Some {| world := update (setLoading isLoading)
                       (update (setUser u) (world sys));
            inflight := inflight sys; fresh := fresh sys |}.
Proof. done. Qed.

Lemma step_list_answered t u r sys :
  inflight sys !! t = Some (loadSavedJobs_await u) →
  step (ListAnswered t r) sys
  = (w ← loadSavedJobs_resume u r (world sys); Some (land t w sys)).
Proof. intros H. cbn [step]. by rewrite H. Qed.

(** X9.  Signing out and signing in never resets the saved set: when
    another user signs in, the remote [list] rejects and nothing is stored
    under the new user's key, the new user is left with the saved set (and
    the job list) of the session before. *)
Theorem saved_set_outlives_sign_out sys next isLoading :
  localStorage (world sys) !! ("savedJobs_" +:+ User.id next) = None →
  ∃ sys',
    run [AuthStateChanged None isLoading; AuthStateChanged (Some next) false;
         UserEffect; ListAnswered (fresh sys) Rejected] sys = Some sys'
    ∧ user (st (world sys')) = Some next
    ∧ savedJobs (st (world sys')) = savedJobs (st (world sys))
    ∧ jobs (st (world sys')) = jobs (st (world sys)).
Proof.
  intros Hl. eexists. split.
  - erewrite run_cons by apply step_AuthStateChanged.
    erewrite run_cons by apply step_AuthStateChanged.
    erewrite run_cons by (by apply (step_UserEffect _ next)).
    erewrite run_cons; [reflexivity|].
    erewrite step_list_answered
      by (cbn [inflight fresh];
          by rewrite lookup_insert_ne, lookup_insert_eq by lia).
    unfold loadSavedJobs_resume, localStorage_getItem.
    cbn [send update console_print localStorage world].
    rewrite Hl. reflexivity.
  - done.
Qed.

Lemma saved_set_outlives_sign_out_witness :
  ∃ sys',
    run [AuthStateChanged None false;
         AuthStateChanged
           (Some {| User.id := "u2"; User.email := "bob@example.org" |}) false;
         UserEffect; ListAnswered 0 Rejected]
      {| world := withSaved ["job-1"] signedIn; inflight := ∅; fresh := 0 |}
    = Some sys'
    ∧ User.id <$> user (st (world sys')) = Some "u2"
    ∧ savedJobs (st (world sys')) = ["job-1"].
Proof.
  destruct (saved_set_outlives_sign_out
              {| world := withSaved ["job-1"] signedIn; inflight := ∅;
                 fresh := 0 |}
              {| User.id := "u2"; User.email := "bob@example.org" |} false
              (lookup_empty _)) as (sys' & E & U & S & _).
  exists sys'. split; [exact E|]. split; [by rewrite U | exact S].
Defined.

(** ** What each event can change *)

Lemma launch_world f sys : world (launch f sys) = world_of (f (world sys)).
Proof. unfold launch. by destruct (f (world sys)). Qed.

Lemma toggleSaveJob_start_frame now iso jobId w :
  localStorage (world_of (toggleSaveJob_start now iso jobId w)) = localStorage w
  ∧ jobs (st (world_of (toggleSaveJob_start now iso jobId w))) = jobs (st w).
Proof.
  unfold toggleSaveJob_start. destruct (includes _ _); [done|].
  by destruct (user (st w)).
Qed.

Lemma handleSearch_start_frame w :
  localStorage (world_of (handleSearch_start w)) = localStorage w
  ∧ jobs (st (world_of (handleSearch_start w))) = jobs (st w).
Proof. unfold handleSearch_start. by destruct (negb _). Qed.

Lemma loadSavedJobs_resume_frame u r w w' :
  loadSavedJobs_resume u r w = Some w' →
  localStorage w' = localStorage w ∧ jobs (st w') = jobs (st w)
  ∧ calls w' = calls w.
Proof.
  unfold loadSavedJobs_resume, localStorage_getItem. destruct r as [saved|].
  - by intros [= <-].
  - cbn [console_print localStorage].
    destruct (localStorage w !! _) as [text|]; [|by intros [= <-]].
    destruct (truthy text); [|by intros [= <-]].
    destruct (JSON_parse text); [by intros [= <-]|done].
Qed.

(** X10.  [localStorage] is written by the end of a toggle and by
    nothing else: every other event (sign-in and sign-out, the effect,
    typing, a search, a click before its remote call is answered, the
    answers to [list] and to generation) leaves every key as it was, and
    the end of a toggle writes one key, [savedJobs_<id>] of a user. *)
Theorem only_toggles_write_localStorage e sys sys' :
  step e sys = Some sys' →
  localStorage (world sys') = localStorage (world sys)
  ∨ ∃ t r u saved,
      e = MutationAnswered t r
      ∧ localStorage (world sys')
        = <["savedJobs_" +:+ User.id u := JSON_stringify saved]>
            (localStorage (world sys)).
Proof.
  destruct e as [u l| |q| |j now iso|t r|t r|t r]; cbn [step].
  - intros [= <-]. by left.
  - destruct (user (st (world sys))); intros [= <-]; by left.
  - intros [= <-]. by left.
  - intros [= <-]. left. rewrite launch_world.
    apply handleSearch_start_frame.
  - intros [= <-]. left. rewrite launch_world.
    apply toggleSaveJob_start_frame.
  - destruct (inflight sys !! t) as [[u| | | |]|]; try done.
    destruct (loadSavedJobs_resume u r (world sys)) as [w|] eqn:E; [|done].
    intros [= <-]. left. by apply (loadSavedJobs_resume_frame u r).
  - destruct (inflight sys !! t) as [[| | | |]|]; try done;
      intros [= <-]; left; by destruct r.
  - destruct (inflight sys !! t) as [[| | |u saved j|u saved j]|]; try done;
      intros [= <-].
    + destruct u as [u|]; [|left; by destruct r].
      right. exists t, r, u, (filter (λ id, id ≠ j) saved).
      split; [done|]. cbn [land world]. apply resume_delete_localStorage.
    + right. exists t, r, u, (saved ++ [j]).
      split; [done|]. cbn [land world]. apply resume_create_localStorage.
Qed.

Lemma only_toggles_write_localStorage_witness :
  ∃ sys',
    step (GenerateAnswered 0 (Resolved [posting "j1" "Analyst"]))
      {| world := localStorage_setItem "savedJobs_u1" "[]" signedIn;
         inflight := {[ 0%nat := handleSearch_await ]}; fresh := 1 |}
    = Some sys'
    ∧ localStorage (world sys') !! "savedJobs_u1" = Some "[]".
Proof.
  destruct (step (GenerateAnswered 0 (Resolved [posting "j1" "Analyst"]))
              {| world := localStorage_setItem "savedJobs_u1" "[]" signedIn;
                 inflight := {[ 0%nat := handleSearch_await ]}; fresh := 1 |})
    as [sys'|] eqn:E0; [|vm_compute in E0; discriminate E0].
  exists sys'. split; [reflexivity|].
  destruct (only_toggles_write_localStorage _ _ _ E0)
    as [E | (t & r & u & saved & E & _)].
  - rewrite E. apply lookup_insert_eq.
  - discriminate E.
Defined.

(** X11.  The job list changes only when a generation call resolves, and
    then it becomes the answer: signing in or out, typing, submitting a
    search, bookmarking, the answers to [list], [create] and [delete] and
    a rejected generation all leave the list as it was. *)
Theorem only_resolved_generation_writes_jobs e sys sys' :
  step e sys = Some sys' →
  jobs (st (world sys')) = jobs (st (world sys))
  ∨ ∃ t object_jobs,
      e = GenerateAnswered t (Resolved object_jobs)
      ∧ jobs (st (world sys')) = object_jobs.
Proof.
  destruct e as [u l| |q| |j now iso|t r|t r|t r]; cbn [step].
  - intros [= <-]. by left.
  - destruct (user (st (world sys))); intros [= <-]; by left.
  - intros [= <-]. by left.
  - intros [= <-]. left. rewrite launch_world.
    apply handleSearch_start_frame.
  - intros [= <-]. left. rewrite launch_world.
    apply toggleSaveJob_start_frame.
  - destruct (inflight sys !! t) as [[u| | | |]|]; try done.
    destruct (loadSavedJobs_resume u r (world sys)) as [w|] eqn:E; [|done].
    intros [= <-]. left. by apply (loadSavedJobs_resume_frame u r).
  - destruct (inflight sys !! t) as [[| | | |]|]; try done;
      intros [= <-]; (destruct r as [js|]; [right; by exists t, js|by left]).
  - destruct (inflight sys !! t) as [[| | |u saved j|u saved j]|]; try done;
      intros [= <-]; left; cbn [land world].
    + by rewrite resume_delete_st.
    + by rewrite resume_create_st.
Qed.

Lemma only_resolved_generation_writes_jobs_witness :
  ∃ sys',
    step (BookmarkClicked "j1" 5 "1970-01-01T00:00:00.005Z")
      {| world := update (setJobs [posting "j1" "Analyst"]) signedIn;
         inflight := ∅; fresh := 0 |}
    = Some sys'
    ∧ jobs (st (world sys')) = [posting "j1" "Analyst"].
Proof.
  destruct (step (BookmarkClicked "j1" 5 "1970-01-01T00:00:00.005Z")
              {| world := update (setJobs [posting "j1" "Analyst"]) signedIn;
                 inflight := ∅; fresh := 0 |})
    as [sys'|] eqn:E0; [|vm_compute in E0; discriminate E0].
  exists sys'. split; [reflexivity|].
  destruct (only_resolved_generation_writes_jobs _ _ _ E0)
    as [E | (t & js & E & _)].
  - exact E.
  - discriminate E.
Defined.

(** X12.  Calls are only sent when the effect runs, a search is
    submitted or a bookmark is clicked: at most two, one and one.  No
    answer, resolved or rejected, makes the component send anything: a
    failed call is not tried again and a finished one starts no other.
    Calls already sent stay in the log. *)
Theorem answers_send_no_calls e sys sys' :
  step e sys = Some sys' →
  ∃ sent,
    calls (world sys') = calls (world sys) ++ sent
    ∧ match e with
      | UserEffect => (length sent ≤ 2)%nat
      | SearchRequested | BookmarkClicked _ _ _ => (length sent ≤ 1)%nat
      | _ => sent = []
      end.
Proof.
  destruct e as [u l| |q| |j now iso|t r|t r|t r]; cbn [step].
  - intros [= <-]. exists []. by rewrite app_nil_r.
  - destruct (user (st (world sys))) as [u|]; intros [= <-].
    + eexists [_; _]. split; [|done]. cbn. by rewrite <- app_assoc.
    + exists []. split; [by rewrite app_nil_r | cbn; lia].
  - intros [= <-]. exists []. by rewrite app_nil_r.
  - intros [= <-]. rewrite launch_world. unfold handleSearch_start.
    destruct (negb _).
    + exists []. split; [by rewrite app_nil_r | cbn; lia].
    + by eexists [_].
  - intros [= <-]. rewrite launch_world. unfold toggleSaveJob_start.
    destruct (includes _ _); [by eexists [_]|].
    destruct (user (st (world sys))); [by eexists [_]|].
    exists []. split; [by rewrite app_nil_r | cbn; lia].
  - destruct (inflight sys !! t) as [[u| | | |]|]; try done.
    destruct (loadSavedJobs_resume u r (world sys)) as [w|] eqn:E; [|done].
    intros [= <-]. exists []. rewrite app_nil_r. split; [|done].
    by apply (loadSavedJobs_resume_frame u r).
  - destruct (inflight sys !! t) as [[| | | |]|]; try done;
      intros [= <-]; exists []; rewrite app_nil_r; (split; [by destruct r|done]).
  - destruct (inflight sys !! t) as [[| | |u saved j|u saved j]|]; try done;
      intros [= <-]; exists []; rewrite app_nil_r; (split; [|done]);
      cbn [land world].
    + apply resume_delete_calls.
    + apply resume_create_calls.
Qed.

Lemma answers_send_no_calls_witness :
  ∃ sys',
    step (GenerateAnswered 0 Rejected)
      {| world := send (ai_generateObject (handleSearch_prompt "react")
                          handleSearch_schema) (withQuery "react" signedIn);
         inflight := {[ 0%nat := handleSearch_await ]}; fresh := 1 |}
    = Some sys'
    ∧ calls (world sys')
      = [ai_generateObject (handleSearch_prompt "react") handleSearch_schema].
Proof.
  destruct (step (GenerateAnswered 0 Rejected)
              {| world := send (ai_generateObject (handleSearch_prompt "react")
                                  handleSearch_schema)
                            (withQuery "react" signedIn);
                 inflight := {[ 0%nat := handleSearch_await ]}; fresh := 1 |})
    as [sys'|] eqn:E0; [|vm_compute in E0; discriminate E0].
  exists sys'. split; [reflexivity|].
  destruct (answers_send_no_calls _ _ _ E0) as (sent & E & ->).
  rewrite E. apply app_nil_r.
Defined.

(** ** What is drawn *)

(** X13.  A card shows at most four requirement badges: all the
    requirements when there are at most three, otherwise the first three
    followed by one badge whose number counts the requirements left out,
    so that the badges account for each requirement. *)
Theorem requirement_badges_cover (requirements : list string) :
  length (requirementBadges requirements) = (length requirements `min` 4)%nat
  ∧ take 3 (requirementBadges requirements) = take 3 requirements
  ∧ ((length requirements ≤ 3)%nat → requirementBadges requirements = requirements)
  ∧ ((3 < length requirements)%nat →
     ∃ hidden : nat,
       requirementBadges requirements
       = take 3 requirements ++ ["+" +:+ pretty hidden +:+ " more"]
       ∧ (3 + hidden = length requirements)%nat).
Proof.
  unfold requirementBadges.
  destruct (3 <? length requirements)%nat eqn:E.
  - apply Nat.ltb_lt in E. split; [|split; [|split]].
    + rewrite length_app, length_take. cbn [length]. lia.
    + rewrite take_app_le by (rewrite length_take; lia).
      rewrite take_take. by rewrite Nat.min_id.
    + lia.
    + intros _. exists (length requirements - 3)%nat. split; [done|lia].
  - apply Nat.ltb_ge in E. rewrite app_nil_r. rewrite (take_ge _ 3) by lia.
    split; [lia|]. split; [by rewrite (take_ge _ 3) by lia|].
    split; [done|lia].
Qed.

Lemma requirement_badges_cover_witness :
  requirementBadges ["BSc"; "SQL"; "Python"; "Excel"; "English"]
  = ["BSc"; "SQL"; "Python"; "+2 more"]
  ∧ requirementBadges ["BSc"; "SQL"] = ["BSc"; "SQL"].
Proof.
  split.
  - destruct (proj2 (proj2 (proj2 (requirement_badges_cover
                ["BSc"; "SQL"; "Python"; "Excel"; "English"]))))
      as (hidden & E & H); [cbn; lia|].
    rewrite E. cbn in H. assert (hidden = 2%nat) as -> by lia. reflexivity.
  - apply (proj1 (proj2 (proj2 (requirement_badges_cover ["BSc"; "SQL"])))).
    cbn. lia.
Defined.

(** X14.  The heading follows the typed text, not the search: as soon as
    a non-empty text is in the box the main page is headed
    [Results for "<text>"], while the grid, the flags and the job list
    are those of before and no call has been sent; and when the text is
    blank, submitting it changes nothing either. *)
Theorem heading_follows_typed_text sys u q :
  user (st (world sys)) = Some u →
  loading (st (world sys)) = false →
  q ≠ "" →
  ∃ sys',
    step (QueryTyped q) sys = Some sys'
    ∧ render (st (world sys'))
      = MainPage (User.email u) (searchLoading (st (world sys)))
          ("Results for " +:+ String dquote q +:+ String dquote "")
          (jobsGrid (st (world sys)))
          (Nat.eqb (length (jobs (st (world sys)))) 0
           && negb (searchLoading (st (world sys))))
    ∧ calls (world sys') = calls (world sys)
    ∧ inflight sys' = inflight sys
    ∧ (blank q → step SearchRequested sys' = Some sys').
Proof.
  intros Hu Hl Hq. eexists. split; [apply step_QueryTyped|].
  split; [|split; [done|split; [done|]]].
  - unfold render. cbn [world update st setSearchQuery loading user
                          searchQuery searchLoading jobs].
    rewrite Hl, Hu. destruct q; [done|]. reflexivity.
  - intros Hb%trim_blank. cbn [step]. unfold launch, handleSearch_start.
    cbn [world update st setSearchQuery searchQuery]. by rewrite Hb.
Qed.

Lemma heading_follows_typed_text_witness :
  ∃ sys',
    step (QueryTyped "  ") signedInSystem = Some sys'
    ∧ render (st (world sys'))
      = MainPage "alice@example.org" false
          ("Results for " +:+ String dquote "  " +:+ String dquote "")
          (Cards []) true
    ∧ step SearchRequested sys' = Some sys'.
Proof.
  destruct (heading_follows_typed_text signedInSystem alice "  "
              eq_refl eq_refl) as (sys' & E & R & _ & _ & B);
    [discriminate|].
  exists sys'. split; [exact E|]. split; [exact R|].
  apply B. change (blank (" " +:+ " " +:+ "")).
  apply blank_more.
  - unfold whitespace. do 5 apply list_elem_of_further. apply list_elem_of_here.
  - apply blank_more; [|apply blank_empty].
    unfold whitespace. do 5 apply list_elem_of_further. apply list_elem_of_here.
Defined.

(** X15.  A generation call that rejects leaves no trace in the state:
    if the search-loading flag was off before, the state cells after a
    failed search, and after a failed initial load, are exactly those of
    before, so the page drawn is the same and shows no sign of the
    failure; [localStorage] is as before too. *)
Theorem failed_generation_leaves_no_trace w :
  searchLoading (st w) = false →
  (st (loadInitialJobs Rejected w) = st w
   ∧ localStorage (loadInitialJobs Rejected w) = localStorage w
   ∧ render (st (loadInitialJobs Rejected w)) = render (st w))
  ∧ (st (handleSearch Rejected w) = st w
     ∧ localStorage (handleSearch Rejected w) = localStorage w
     ∧ render (st (handleSearch Rejected w)) = render (st w)).
Proof.
  intros Hs.
  assert (A : st (loadInitialJobs Rejected w) = st w).
  { unfold loadInitialJobs. cbn. destruct (st w). cbn in Hs. by subst. }
  assert (B : st (handleSearch Rejected w) = st w).
  { unfold handleSearch, handleSearch_start. destruct (negb _); [done|].
    cbn. destruct (st w). cbn in Hs. by subst. }
  split.
  - split; [exact A|]. split; [done|]. by rewrite A.
  - split; [exact B|]. split; [|by rewrite B].
    unfold handleSearch, handleSearch_start. by destruct (negb _).
Qed.

Lemma failed_generation_leaves_no_trace_witness :
  let w := withQuery "react" (update (setJobs [posting "j1" "Analyst"]) signedIn) in
  st (handleSearch Rejected w) = st w
  ∧ calls (handleSearch Rejected w)
    = [ai_generateObject (handleSearch_prompt "react") handleSearch_schema].
Proof.
  intros w. split; [|reflexivity].
  exact (proj1 (proj2 (failed_generation_leaves_no_trace w eq_refl))).
Defined.

(** ** Clicks that overlap *)

Lemma step_BookmarkClicked_absent sys u jobId now iso :
  user (st (world sys)) = Some u →
  jobId ∉ savedJobs (st (world sys)) →
  step (BookmarkClicked jobId now iso) sys
  = Some {| world :=
              send (db_savedJobs_create
                      {| SavedJob.id := "saved_" +:+ pretty now;
                         SavedJob.userId := User.id u;
                         SavedJob.jobId := jobId;
                         SavedJob.createdAt := iso |}) (world sys);
            inflight :=
              <[fresh sys := toggleSaveJob_await_create u
                               (savedJobs (st (world sys))) jobId]>
                (inflight sys);
            fresh := S (fresh sys) |}.
Proof.
  intros Hu Hj%includes_false. cbn [step]. unfold launch, toggleSaveJob_start.
  by rewrite Hj, Hu.
Qed.

Lemma step_create_answered t u saved jobId r sys :
  inflight sys !! t = Some (toggleSaveJob_await_create u saved jobId) →
  step (MutationAnswered t r) sys
  = Some (land t (toggleSaveJob_resume_create u saved jobId r (world sys)) sys).
Proof. intros H. cbn [step]. by rewrite H. Qed.

(** X16.  Two bookmark clicks on postings that are not saved, the second
    before the remote call of the first is answered: each call, when it
    is answered, writes the saved set its click saw plus its own id, so
    the saved set and the local entry end with the id of the call
    answered last and without the other one.  One of the two bookmarks is
    lost although both remote [create] calls were sent. *)
Theorem overlapping_clicks_lose_a_bookmark
    sys u id1 id2 now1 iso1 now2 iso2 r1 r2 :
  user (st (world sys)) = Some u →
  id1 ∉ savedJobs (st (world sys)) →
  id2 ∉ savedJobs (st (world sys)) →
  let saved := savedJobs (st (world sys)) in
  let key := "savedJobs_" +:+ User.id u in
  let clicks := [BookmarkClicked id1 now1 iso1; BookmarkClicked id2 now2 iso2] in
  (∃ sys',
     run (clicks ++ [MutationAnswered (fresh sys) r1;
                     MutationAnswered (S (fresh sys)) r2]) sys = Some sys'
     ∧ savedJobs (st (world sys')) = saved ++ [id2]
     ∧ localStorage (world sys') !! key = Some (JSON_stringify (saved ++ [id2]))
     ∧ length (calls (world sys')) = (length (calls (world sys)) + 2)%nat)
  ∧ (∃ sys',
       run (clicks ++ [MutationAnswered (S (fresh sys)) r2;
                       MutationAnswered (fresh sys) r1]) sys = Some sys'
       ∧ savedJobs (st (world sys')) = saved ++ [id1]
       ∧ localStorage (world sys') !! key
         = Some (JSON_stringify (saved ++ [id1]))
       ∧ length (calls (world sys')) = (length (calls (world sys)) + 2)%nat).
Proof.
  intros Hu H1 H2 saved key clicks.
  assert (Ne : fresh sys ≠ S (fresh sys)) by lia.
  split; eexists; (split; [
    unfold clicks; cbn [app];
    erewrite run_cons by (by apply (step_BookmarkClicked_absent _ u));
    erewrite run_cons by (by apply (step_BookmarkClicked_absent _ u)) |]).
  - erewrite run_cons
      by (apply step_create_answered; cbn [inflight fresh world send st];
          by rewrite lookup_insert_ne, lookup_insert_eq by done).
    erewrite run_cons; [reflexivity|].
    apply step_create_answered. cbn [land inflight fresh world send st].
    by rewrite lookup_delete_ne, lookup_insert_eq by done.
  - cbn [land world]. rewrite resume_create_st, resume_create_localStorage,
      resume_create_calls, resume_create_calls.
    split; [done|]. split; [apply lookup_insert_eq|].
    cbn [send calls]. rewrite !length_app. cbn. lia.
  - erewrite run_cons
      by (apply step_create_answered; cbn [inflight fresh world send st];
          by rewrite lookup_insert_eq).
    erewrite run_cons; [reflexivity|].
    apply step_create_answered. cbn [land inflight fresh world send st].
    by rewrite lookup_delete_ne, lookup_insert_ne, lookup_insert_eq by done.
  - cbn [land world]. rewrite resume_create_st, resume_create_localStorage,
      resume_create_calls, resume_create_calls.
    split; [done|]. split; [apply lookup_insert_eq|].
    cbn [send calls]. rewrite !length_app. cbn. lia.
Qed.

Lemma overlapping_clicks_lose_a_bookmark_witness :
  ∃ sys',
    run [BookmarkClicked "job-1" 5 "1970-01-01T00:00:00.005Z";
         BookmarkClicked "job-2" 6 "1970-01-01T00:00:00.006Z";
         MutationAnswered 0 (Resolved ());
         MutationAnswered 1 (Resolved ())] signedInSystem = Some sys'
    ∧ savedJobs (st (world sys')) = ["job-2"].
Proof.
  destruct (overlapping_clicks_lose_a_bookmark signedInSystem alice
              "job-1" "job-2" 5 "1970-01-01T00:00:00.005Z"
              6 "1970-01-01T00:00:00.006Z" (Resolved ()) (Resolved ())
              eq_refl (not_elem_of_nil _) (not_elem_of_nil _))
    as ((sys' & E & S & _) & _).
  exists sys'. split; [exact E | exact S].
Defined.

Lemma toggleSaveJob_start_savedJobs now iso jobId w :
  user (st w) ≠ None →
  savedJobs (st (world_of (toggleSaveJob_start now iso jobId w)))
  = savedJobs (st w).
Proof.
  intros Hu. unfold toggleSaveJob_start. destruct (includes _ _); [done|].
  by destruct (user (st w)).
Qed.

(** X17.  With a user signed in, the saved set is written only by the
    answer to [list] and by the end of a toggle: typing, submitting a
    search, the answers to generation (which replace the whole job list),
    sign-in and sign-out events, the effect and a bookmark click that is
    still waiting for its remote call leave the saved ids as they were, so
    bookmarks outlive the postings on display. *)
Theorem saved_set_outlives_searches e sys sys' :
  user (st (world sys)) ≠ None →
  step e sys = Some sys' →
  savedJobs (st (world sys')) = savedJobs (st (world sys))
  ∨ (∃ t r, e = ListAnswered t r)
  ∨ (∃ t r, e = MutationAnswered t r).
Proof.
  intros Hu.
  destruct e as [u l| |q| |j now iso|t r|t r|t r]; cbn [step].
  - intros [= <-]. by left.
  - destruct (user (st (world sys))); intros [= <-]; by left.
  - intros [= <-]. by left.
  - intros [= <-]. left. rewrite launch_world. unfold handleSearch_start.
    by destruct (negb _).
  - intros [= <-]. left. rewrite launch_world.
    by apply toggleSaveJob_start_savedJobs.
  - intros _. right. left. by exists t, r.
  - destruct (inflight sys !! t) as [[| | | |]|]; try done;
      intros [= <-]; left; by destruct r.
  - intros _. right. right. by exists t, r.
Qed.

Lemma saved_set_outlives_searches_witness :
  ∃ sys',
    step (GenerateAnswered 0 (Resolved [posting "j9" "Designer"]))
      {| world := withSaved ["j1"] (update (setJobs [posting "j1" "Analyst"])
                                      signedIn);
         inflight := {[ 0%nat := handleSearch_await ]}; fresh := 1 |}
    = Some sys'
    ∧ savedJobs (st (world sys')) = ["j1"]
    ∧ jobs (st (world sys')) = [posting "j9" "Designer"].
Proof.
  destruct (step (GenerateAnswered 0 (Resolved [posting "j9" "Designer"]))
              {| world := withSaved ["j1"]
                            (update (setJobs [posting "j1" "Analyst"]) signedIn);
                 inflight := {[ 0%nat := handleSearch_await ]}; fresh := 1 |})
    as [sys'|] eqn:E0; [|vm_compute in E0; discriminate E0].
  exists sys'. split; [reflexivity|].
  assert (Hu : user (st (world
                 {| world := withSaved ["j1"]
                               (update (setJobs [posting "j1" "Analyst"])
                                  signedIn);
                    inflight := {[ 0%nat := handleSearch_await ]};
                    fresh := 1 |})) ≠ None) by discriminate.
  destruct (saved_set_outlives_searches _ _ _ Hu E0)
    as [E | [(t & r & E) | (t & r & E)]].
  - split; [exact E|]. injection E0 as <-. reflexivity.
  - discriminate E.
  - discriminate E.
Defined.
